(** * DevMiniOS: the word-level bigram model
    ([MiniModel/py/outloud_mini_lm.py])

    A shallow embedding of the class [BigramModel] and the properties of its
    tokenizer, distribution builder, sampler and persistence methods.

    Conventions of the embedding
    - A Python [str] is a [string]; the text is taken to be ASCII, so [\w] is
      [[A-Za-z0-9_]], [str.lower] maps [A-Z] to [a-z] and [str.strip] removes
      the ASCII white space of [str.isspace].
    - A Python [dict] is an association list in insertion order ([dict_get],
      [dict_set]); a Python [set] is kept as the list of its elements in the
      order they were added, and is read back through [set_iter], the
      iteration order of the interpreter, of which only that it is some
      permutation of the elements is known.
    - A Python [float] is a binary64 primitive float; [int / int] is the
      quotient of the two converted operands (exact conversion for counts
      below 2^53).
    - The module-level generator of [random] is a state [random_state] of the
      world, with [seed_state] for [random.seed] and [next_random] for
      [random.random].
    - Methods run in a state-and-exception monad over the world. *)

From Stdlib Require Import List String Ascii ZArith Lia Bool Permutation.
From Stdlib Require Import QArith Qpower Qabs Floats.
From Stdlib Require Uint63.
Import ListNotations.

Local Open Scope string_scope.
Local Open Scope Z_scope.

(* ------------------------------------------------------------------ *)
(** ** Python exceptions and results *)

Inductive exn : Type :=
| IndexError
| KeyError
| ValueError
| TypeError
| ZeroDivisionError
| SystemExit (code : Z).

Inductive result (A : Type) : Type :=
| Ok (a : A)
| Raise (e : exn).

Arguments Ok {A} a.
Arguments Raise {A} e.

Definition result_bind {A B} (r : result A) (k : A -> result B) : result B :=
  match r with
  | Ok a => k a
  | Raise e => Raise e
  end.

(* ------------------------------------------------------------------ *)
(** ** Text: [str.strip], [str.lower] and the tokenizer *)

Module Text.

Definition Token := string.

Definition dquote : ascii := "034"%char.

Definition in_range (lo hi : nat) (c : ascii) : bool :=
  let n := nat_of_ascii c in (Nat.leb lo n && Nat.leb n hi)%bool.

(** [\w] on ASCII text. *)
Definition is_word (c : ascii) : bool :=
  (in_range 48 57 c || in_range 65 90 c || in_range 97 122 c
   || Ascii.eqb c "_")%bool.

(** Any character but the double quote (the class of the pattern's quoted
    part). *)
Definition not_dquote (c : ascii) : bool := negb (Ascii.eqb c dquote).

(** The characters removed by [str.strip()]: TAB, LF, VT, FF, CR, FS, GS, RS,
    US and the space. *)
Definition is_space (c : ascii) : bool :=
  (in_range 9 13 c || in_range 28 32 c)%bool.

Definition lower_char (c : ascii) : ascii :=
  if in_range 65 90 c then ascii_of_nat (nat_of_ascii c + 32) else c.

Fixpoint lower (s : string) : string :=
  match s with
  | EmptyString => EmptyString
  | String c r => String (lower_char c) (lower r)
  end.

Fixpoint lstrip (s : string) : string :=
  match s with
  | EmptyString => EmptyString
  | String c r => if is_space c then lstrip r else s
  end.

Fixpoint rev_string (acc s : string) : string :=
  match s with
  | EmptyString => acc
  | String c r => rev_string (String c acc) r
  end.

Definition rstrip (s : string) : string :=
  rev_string EmptyString (lstrip (rev_string EmptyString s)).

Definition strip (s : string) : string := rstrip (lstrip s).

(** The longest prefix of [s] whose characters satisfy [p], and what follows
    it: a greedy [p+] or [p*]. *)
Fixpoint span (p : ascii -> bool) (s : string) : string * string :=
  match s with
  | EmptyString => (EmptyString, EmptyString)
  | String c r =>
      if p c then let (a, b) := span p r in (String c a, b)
      else (EmptyString, s)
  end.

(** First alternative (word characters, [=], a double quote, characters
    other than the double quote, a double quote), tried at the start of [s].
    The greedy run of word characters cannot usefully give characters back (a
    shorter run is followed by a word character, not by [=]), and neither can
    the run of non-quote characters, so the match is the one of the greedy
    runs or none.  The result is the matched text and the text after it. *)
Definition match_quoted (s : string) : option (string * string) :=
  let (w, r) := span is_word s in
  match w with
  | EmptyString => None
  | String _ _ =>
      match r with
      | String e (String q r1) =>
          if (Ascii.eqb e "=" && Ascii.eqb q dquote)%bool then
            let (v, r2) := span not_dquote r1 in
            match r2 with
            | String q' r3 =>
                if Ascii.eqb q' dquote
                then Some (w ++ String "=" (String dquote v)
                             ++ String dquote EmptyString, r3)
                else None
            | EmptyString => None
            end
          else None
      | _ => None
      end
  end.

(** Second alternative, [\w+]. *)
Definition match_word (s : string) : option (string * string) :=
  let (w, r) := span is_word s in
  match w with
  | EmptyString => None
  | String _ _ => Some (w, r)
  end.

Definition match_token (s : string) : option (string * string) :=
  match match_quoted s with
  | Some m => Some m
  | None => match_word s
  end.

(** [re.findall]: non-overlapping matches from left to right; where nothing
    matches, the scan moves one character on.  [None] means out of fuel. *)
Fixpoint findall (fuel : nat) (s : string) : option (list Token) :=
  match fuel with
  | O => None
  | S fuel' =>
      match s with
      | EmptyString => Some []
      | String _ r =>
          match match_token s with
          | Some (tok, rest) => option_map (cons tok) (findall fuel' rest)
          | None => findall fuel' r
          end
      end
  end.

(** [BigramModel.tokenize]. *)
Definition tokenize (text : string) : list Token :=
  match findall (S (String.length text)) text with
  | Some toks => toks
  | None => []
  end.

(** [sep.join(words)]. *)
Fixpoint join (sep : string) (words : list string) : string :=
  match words with
  | [] => EmptyString
  | [w] => w
  | w :: ws => w ++ sep ++ join sep ws
  end.

End Text.
Import Text.

Local Open Scope list_scope.

(* ------------------------------------------------------------------ *)
(** ** Python dictionaries and sets *)

(** Keys are compared with a boolean equality that decides Leibniz equality. *)
Class EqKey (K : Type) : Type := {
  key_eqb : K -> K -> bool;
  key_eqb_spec : forall a b, reflect (a = b) (key_eqb a b)
}.

#[export] Instance EqKey_string : EqKey string :=
  {| key_eqb := String.eqb; key_eqb_spec := String.eqb_spec |}.

Section Dict.
Context {K V : Type} `{EqKey K}.

(** A [dict]: the items in insertion order. *)
Definition dict : Type := list (K * V).

(** [d.get(k)], [None] when the key is absent. *)
Fixpoint dict_get (k : K) (d : dict) : option V :=
  match d with
  | [] => None
  | (k', v) :: r => if key_eqb k k' then Some v else dict_get k r
  end.

(** [k in d]. *)
Definition dict_mem (k : K) (d : dict) : bool :=
  match dict_get k d with Some _ => true | None => false end.

(** [d[k] = v]: an existing key keeps its position, a new one goes last. *)
Fixpoint dict_set (k : K) (v : V) (d : dict) : dict :=
  match d with
  | [] => [(k, v)]
  | (k', v') :: r =>
      if key_eqb k k' then (k', v) :: r else (k', v') :: dict_set k v r
  end.

Definition dict_keys (d : dict) : list K := map fst d.
End Dict.

Arguments dict K V : clear implicits.

(** A [set] of tokens, kept as its elements in the order they were first
    added. *)
Definition pyset : Type := list Token.

(** [s.add(x)]. *)
Definition set_add (x : Token) (s : pyset) : pyset :=
  if existsb (String.eqb x) s then s else s ++ [x].

(* ------------------------------------------------------------------ *)
(** ** The interpreter: iteration order of sets and the [random] module *)

(** What the embedding takes from the Python runtime.  [set_iter s] is the
    order in which [for w in s] visits a set whose elements were added in the
    order [s] (the hash table, and so the order, is a function of the
    additions and of the string hash of the process); the language promises
    no more than that every element is visited once.  [seed_state] is the
    generator state after [random.seed(n)] and [next_random] is one call of
    [random.random()]. *)
Class PyRuntime : Type := {
  RandomState : Type;
  seed_state : Z -> RandomState;
  next_random : RandomState -> float * RandomState;
  set_iter : pyset -> list Token;
  set_iter_perm : forall s, Permutation (set_iter s) s
}.

(* ------------------------------------------------------------------ *)
(** ** The model object *)

(** A key of [bigram_counts]: the tuple [(first, second)] that [train] stores,
    or the string that a key is after [json.load]. *)
Inductive bigram_key : Type :=
| KTuple (first second : Token)
| KStr (s : string).

Definition bigram_key_eqb (a b : bigram_key) : bool :=
  match a, b with
  | KTuple a1 a2, KTuple b1 b2 => (String.eqb a1 b1 && String.eqb a2 b2)%bool
  | KStr s, KStr t => String.eqb s t
  | _, _ => false
  end.

Lemma bigram_key_eqb_spec (a b : bigram_key) :
  reflect (a = b) (bigram_key_eqb a b).
Proof.
  destruct a as [a1 a2 | s], b as [b1 b2 | t]; simpl;
    try (constructor; discriminate).
  - destruct (String.eqb_spec a1 b1), (String.eqb_spec a2 b2); simpl;
      constructor; congruence.
  - destruct (String.eqb_spec s t); constructor; congruence.
Qed.

#[export] Instance EqKey_bigram : EqKey bigram_key :=
  {| key_eqb := bigram_key_eqb; key_eqb_spec := bigram_key_eqb_spec |}.

(** One successor distribution: [(word, cumulative_probability)] pairs. *)
Definition distribution : Type := list (Token * float).

(** The attributes of a [BigramModel] instance. *)
Record BigramModel : Type := {
  bigram_counts : dict bigram_key Z;
  word_counts : dict Token Z;
  cumulative_probs : dict Token distribution
}.

(** [BigramModel.__init__]. *)
Definition init : BigramModel :=
  {| bigram_counts := []; word_counts := []; cumulative_probs := [] |}.

(** The document that [json.dump] writes for [model_data] when it succeeds. *)
Record model_data : Type := {
  md_bigram_counts : dict string Z;
  md_word_counts : dict string Z
}.

(** A model file: a complete JSON document, or the text left behind by a dump
    that stopped part way (not valid JSON). *)
Inductive file_content : Type :=
| JsonText (doc : model_data)
| Truncated.

(* ------------------------------------------------------------------ *)
(** ** The world and the monad of methods *)

Section Methods.
Context {rt : PyRuntime}.

(** What a method call can read and change: the instance, the generator of
    the [random] module and the model files on disk. *)
Record World : Type := {
  self : BigramModel;
  random_state : RandomState;
  model_files : dict string file_content
}.

Definition M (A : Type) : Type := World -> result A * World.

Definition ret {A} (a : A) : M A := fun w => (Ok a, w).

Definition bind {A B} (c : M A) (k : A -> M B) : M B :=
  fun w =>
    match c w with
    | (Ok a, w') => k a w'
    | (Raise e, w') => (Raise e, w')
    end.

Definition raise {A} (e : exn) : M A := fun w => (Raise e, w).

Definition lift {A} (r : result A) : M A := fun w => (r, w).

Definition read {A} (f : World -> A) : M A := fun w => (Ok (f w), w).

Definition update (f : World -> World) : M unit := fun w => (Ok tt, f w).

Notation "x <- c ;; k" := (bind c (fun x => k))
  (at level 61, c at next level, right associativity).
Notation "c ;; k" := (bind c (fun _ => k))
  (at level 61, right associativity).

Fixpoint for_each {A} (l : list A) (body : A -> M unit) : M unit :=
  match l with
  | [] => ret tt
  | x :: r => body x ;; for_each r body
  end.

Definition with_self (m : BigramModel) (w : World) : World :=
  {| self := m; random_state := random_state w;
     model_files := model_files w |}.

Definition with_random_state (g : RandomState) (w : World) : World :=
  {| self := self w; random_state := g; model_files := model_files w |}.

Definition with_model_files (fs : dict string file_content) (w : World)
  : World :=
  {| self := self w; random_state := random_state w; model_files := fs |}.

Definition with_bigram_counts (d : dict bigram_key Z) (w : World) : World :=
  with_self {| bigram_counts := d;
               word_counts := word_counts (self w);
               cumulative_probs := cumulative_probs (self w) |} w.

Definition with_word_counts (d : dict Token Z) (w : World) : World :=
  with_self {| bigram_counts := bigram_counts (self w);
               word_counts := d;
               cumulative_probs := cumulative_probs (self w) |} w.

Definition with_cumulative_probs (d : dict Token distribution) (w : World)
  : World :=
  with_self {| bigram_counts := bigram_counts (self w);
               word_counts := word_counts (self w);
               cumulative_probs := d |} w.

(** [self.bigram_counts = d] and its two siblings. *)
Definition set_bigram_counts (d : dict bigram_key Z) : M unit :=
  update (with_bigram_counts d).

Definition set_word_counts (d : dict Token Z) : M unit :=
  update (with_word_counts d).

Definition set_cumulative_probs (d : dict Token distribution) : M unit :=
  update (with_cumulative_probs d).

(* ---------------------------------------------------------------- *)
(** *** [get_following_words] *)

(** [first_word, second_word = bigram]: a tuple gives its two parts, a
    string unpacks only when it has exactly two characters. *)
Definition unpack (bigram : bigram_key) : result (Token * Token) :=
  match bigram with
  | KTuple first second => Ok (first, second)
  | KStr (String c1 (String c2 EmptyString)) =>
      Ok (String c1 EmptyString, String c2 EmptyString)
  | KStr _ => Raise ValueError
  end.

(** The loop over [self.bigram_counts.items()]. *)
Fixpoint following_loop (items : list (bigram_key * Z))
    (following_words : dict Token pyset) : result (dict Token pyset) :=
  match items with
  | [] => Ok following_words
  | (bigram, _) :: rest =>
      match unpack bigram with
      | Raise e => Raise e
      | Ok (first_word, second_word) =>
          let following_words :=
            if dict_mem first_word following_words then following_words
            else dict_set first_word [] following_words in
          match dict_get first_word following_words with
          | None => Raise KeyError
          | Some s =>
              following_loop rest
                (dict_set first_word (set_add second_word s)
                   following_words)
          end
      end
  end.

Definition get_following_words : M (dict Token pyset) :=
  bc <- read (fun w => bigram_counts (self w)) ;;
  lift (following_loop bc []).

(* ---------------------------------------------------------------- *)
(** *** [calculate_cumulative_probabilities] *)

(** [int] to [float]. *)
Definition float_of_Z (z : Z) : float :=
  match z with
  | Z0 => 0%float
  | Zpos _ => PrimFloat.of_uint63 (Uint63.of_Z z)
  | Zneg _ => (- PrimFloat.of_uint63 (Uint63.of_Z (- z)))%float
  end.

(** [a / b] on two [int]s. *)
Definition truediv (a b : Z) : result float :=
  if b =? 0 then Raise ZeroDivisionError
  else Ok (float_of_Z a / float_of_Z b)%float.

(** [self.bigram_counts[key]]. *)
Definition lookup_count (key : bigram_key) : M Z :=
  bc <- read (fun w => bigram_counts (self w)) ;;
  match dict_get key bc with
  | Some c => ret c
  | None => raise KeyError
  end.

(** [sum(self.bigram_counts[(word, w)] for w in following_words)]. *)
Fixpoint sum_counts (word : Token) (ws : list Token) (acc : Z) : M Z :=
  match ws with
  | [] => ret acc
  | w :: r =>
      c <- lookup_count (KTuple word w) ;;
      sum_counts word r (acc + c)
  end.

(** [self.cumulative_probs[word].append(item)]. *)
Definition append_cumulative (word : Token) (item : Token * float)
  : M unit :=
  cp <- read (fun w => cumulative_probs (self w)) ;;
  match dict_get word cp with
  | Some l => set_cumulative_probs (dict_set word (l ++ [item]) cp)
  | None => raise KeyError
  end.

(** The inner loop [for w in following_words]. *)
Fixpoint distribution_loop (word : Token) (total_count : Z)
    (ws : list Token) (cumulative_probability : float) : M unit :=
  match ws with
  | [] => ret tt
  | w :: r =>
      c <- lookup_count (KTuple word w) ;;
      q <- lift (truediv c total_count) ;;
      let cumulative_probability := (cumulative_probability + q)%float in
      append_cumulative word (w, cumulative_probability) ;;
      distribution_loop word total_count r cumulative_probability
  end.

Definition calculate_cumulative_probabilities : M unit :=
  fw <- get_following_words ;;
  for_each fw (fun '(word, following_words) =>
    total_count <- sum_counts word (set_iter following_words) 0 ;;
    cp <- read (fun w => cumulative_probs (self w)) ;;
    set_cumulative_probs (dict_set word [] cp) ;;
    distribution_loop word total_count (set_iter following_words) 0%float).

(* ---------------------------------------------------------------- *)
(** *** [train] *)

(** [tokens[i]]. *)
Definition index (tokens : list Token) (i : nat) : M Token :=
  match nth_error tokens i with
  | Some t => ret t
  | None => raise IndexError
  end.

Definition count_word (token : Token) : M unit :=
  wc <- read (fun w => word_counts (self w)) ;;
  set_word_counts
    (dict_set token (match dict_get token wc with
                     | Some c => c | None => 0 end + 1) wc).

Definition count_bigram (tokens : list Token) (i : nat) : M unit :=
  first <- index tokens i ;;
  second <- index tokens (i + 1) ;;
  let bigram := KTuple first second in
  bc <- read (fun w => bigram_counts (self w)) ;;
  set_bigram_counts
    (dict_set bigram (match dict_get bigram bc with
                      | Some c => c | None => 0 end + 1) bc).

(** The body of [for line in f]. *)
Definition train_line (line : string) : M unit :=
  let tokens := tokenize (lower (strip line)) in
  match tokens with
  | [] => ret tt
  | _ :: _ =>
      for_each tokens count_word ;;
      for_each (seq 0 (List.length tokens - 1)) (count_bigram tokens)
  end.

(** [train], on the lines of the corpus file. *)
Definition train (corpus : list string) : M unit :=
  for_each corpus train_line ;;
  calculate_cumulative_probabilities.

(* ---------------------------------------------------------------- *)
(** *** [sample] *)

(** The returned dictionary. *)
Record Completion : Type := {
  completion : string;
  tokens : list Token
}.

(** [random.seed(seed)] and [random.random()]. *)
Definition random_seed (seed : Z) : M unit :=
  update (with_random_state (seed_state seed)).

Definition random_random : M float :=
  fun w =>
    let (x, g) := next_random (random_state w) in
    (Ok x, with_random_state g w).

(** [completion[-1]]. *)
Definition last_item (completion : list Token) : M Token :=
  match rev completion with
  | t :: _ => ret t
  | [] => raise IndexError
  end.

(** The scan [for word, cumulative_probability in ...]: the first word
    whose cumulative probability exceeds [rand], [None] for the [else]
    branch of the loop. *)
Fixpoint pick (rand : float) (dist : distribution) : option Token :=
  match dist with
  | [] => None
  | (word, cumulative_probability) :: r =>
      if PrimFloat.ltb rand cumulative_probability then Some word
      else pick rand r
  end.

(** [for _ in range(max_tokens)], on the remaining number of rounds. *)
Fixpoint sample_loop (rounds : nat) (completion : list Token)
  : M (list Token) :=
  match rounds with
  | O => ret completion
  | S rounds' =>
      last_word <- last_item completion ;;
      cp <- read (fun w => cumulative_probs (self w)) ;;
      match dict_get last_word cp with
      | None => ret completion
      | Some dist =>
          rand <- random_random ;;
          match pick rand dist with
          | Some word => sample_loop rounds' (completion ++ [word])
          | None => ret completion
          end
      end
  end.

Definition sample (prefix : string) (max_tokens : Z) (seed : option Z)
  : M Completion :=
  match seed with
  | Some s => random_seed s
  | None => ret tt
  end ;;
  let tokens := tokenize (lower (strip prefix)) in
  completion <- sample_loop (Z.to_nat max_tokens) tokens ;;
  ret {| completion := join " " (skipn (List.length tokens) completion);
         tokens := skipn (List.length tokens) completion |}.

(* ---------------------------------------------------------------- *)
(** *** [save_model] and [load_model] *)

(** The keys of a JSON object as [json.dump] writes them: a [str] key as it
    is, a tuple key is refused with [TypeError]. *)
Fixpoint dump_counts (items : list (bigram_key * Z))
  : result (dict string Z) :=
  match items with
  | [] => Ok []
  | (KTuple _ _, _) :: _ => Raise TypeError
  | (KStr s, v) :: r =>
      result_bind (dump_counts r) (fun d => Ok ((s, v) :: d))
  end.

Definition write_file (name : string) (c : file_content) : M unit :=
  update (fun w => with_model_files (dict_set name c (model_files w)) w).

(** [save_model]: the file is opened for writing, then [json.dump] writes
    [bigram_counts] first; when a key is refused the file keeps the text
    written so far. *)
Definition save_model (model_file : string) : M unit :=
  bc <- read (fun w => bigram_counts (self w)) ;;
  wc <- read (fun w => word_counts (self w)) ;;
  match dump_counts bc with
  | Ok d =>
      write_file model_file
        (JsonText {| md_bigram_counts := d; md_word_counts := wc |})
  | Raise e => write_file model_file Truncated ;; raise e
  end.

(** [load_model]: a missing file and invalid JSON end the process with
    [exit(1)]; other exceptions are not caught. *)
Definition load_model (model_file : string) : M unit :=
  files <- read model_files ;;
  match dict_get model_file files with
  | None => raise (SystemExit 1)
  | Some Truncated => raise (SystemExit 1)
  | Some (JsonText doc) =>
      set_bigram_counts
        (map (fun kv => (KStr (fst kv), snd kv)) (md_bigram_counts doc)) ;;
      set_word_counts (md_word_counts doc) ;;
      calculate_cumulative_probabilities
  end.

End Methods.

Arguments World {rt}.
Arguments M {rt} A.

Notation "x <- c ;; k" := (bind c (fun x => k))
  (at level 61, c at next level, right associativity).
Notation "c ;; k" := (bind c (fun _ => k))
  (at level 61, right associativity).

(* ------------------------------------------------------------------ *)
(** ** Two runtimes *)

(** A small linear congruential generator standing for the Mersenne Twister:
    the state is a 32-bit number and the draw is the state over 2^32. *)
Definition lcg_next (g : Z) : float * Z :=
  let g' := (1664525 * g + 1013904223) mod 4294967296 in
  ((PrimFloat.of_uint63 (Uint63.of_Z g') / 4294967296)%float, g').

(** Sets that iterate in insertion order. *)
#[export] Instance insertion_runtime : PyRuntime := {|
  RandomState := Z;
  seed_state := fun n => n mod 4294967296;
  next_random := lcg_next;
  set_iter := fun s => s;
  set_iter_perm := fun s => Permutation_refl s
|}.

(** A hash table without collisions: [x] goes before the elements whose slot
    is larger. *)
Fixpoint slot_insert (slot : Token -> nat) (x : Token) (l : list Token)
  : list Token :=
  match l with
  | [] => [x]
  | y :: r =>
      if Nat.ltb (slot x) (slot y) then x :: l else y :: slot_insert slot x r
  end.

Definition slot_order (slot : Token -> nat) (s : pyset) : list Token :=
  fold_left (fun table x => slot_insert slot x table) s [].

Lemma slot_insert_perm slot x l : Permutation (slot_insert slot x l) (x :: l).
Proof.
  induction l as [| y r IH]; simpl; [reflexivity |].
  destruct (Nat.ltb (slot x) (slot y)); [reflexivity |].
  rewrite IH. apply perm_swap.
Qed.

Lemma slot_order_perm slot s : Permutation (slot_order slot s) s.
Proof.
  unfold slot_order.
  enough (G : forall table,
             Permutation (fold_left (fun t x => slot_insert slot x t) s table)
                         (table ++ s)) by apply (G []).
  induction s as [| x r IH]; intros table; simpl.
  - now rewrite app_nil_r.
  - rewrite IH, slot_insert_perm. apply Permutation_middle.
Qed.

(** The slot of a token in an eight-slot table under the hash that sends a
    token to 255 minus the code of its first character. *)
Definition first_char_slot (t : Token) : nat :=
  match t with
  | EmptyString => 0
  | String c _ => (255 - nat_of_ascii c) mod 8
  end.

(** Sets that iterate in the order of [first_char_slot]. *)
#[export] Instance slot_runtime : PyRuntime := {|
  RandomState := Z;
  seed_state := fun n => n mod 4294967296;
  next_random := lcg_next;
  set_iter := slot_order first_char_slot;
  set_iter_perm := slot_order_perm first_char_slot
|}.


Definition journal_text : string :=
  ("open app=" ++ String dquote "journal" ++ String dquote EmptyString)%string.

Definition spaced_token : Token :=
  ("say=" ++ String dquote "hello big world"
   ++ String dquote EmptyString)%string.

Definition journal_token : Token :=
  ("app=" ++ String dquote "journal" ++ String dquote EmptyString)%string.

(* ------------------------------------------------------------------ *)
(** ** Reading the counts: observation order, well-formed counts *)

(** The (predecessor, successor) pairs of the tuple keys, in the insertion
    order of the keys. *)
Definition observed (bc : dict bigram_key Z) : list (Token * Token) :=
  flat_map (fun kv => match fst kv with
                      | KTuple first second => [(first, second)]
                      | KStr _ => []
                      end) bc.

(** The successors seen after [P], one entry per key, in key order. *)
Definition successors_observed (bc : dict bigram_key Z) (P : Token)
  : list Token :=
  map snd (filter (fun ab => String.eqb (fst ab) P) (observed bc)).

(** Each element once, at the place of its first occurrence. *)
Fixpoint first_occurrences (l : list Token) : list Token :=
  match l with
  | [] => []
  | x :: r =>
      x :: filter (fun y => negb (String.eqb y x)) (first_occurrences r)
  end.

(** First-observation order of the successors of [P], as the specification
    words it: the order in which each successor first appears as the second
    element of a key with predecessor [P], scanning the keys in insertion
    order. *)
Definition first_observation_order (bc : dict bigram_key Z) (P : Token)
  : list Token :=
  first_occurrences (successors_observed bc P).

(** The predecessors, in first-observation order. *)
Definition predecessors (bc : dict bigram_key Z) : list Token :=
  first_occurrences (map fst (observed bc)).

(** Every key is a (predecessor, successor) tuple. *)
Definition tuple_keys (bc : dict bigram_key Z) : bool :=
  forallb (fun kv => match fst kv with
                     | KTuple _ _ => true
                     | KStr _ => false
                     end) bc.

(** Every count is at least 1. *)
Definition positive_counts (bc : dict bigram_key Z) : bool :=
  forallb (fun kv => 1 <=? snd kv) bc.

(** [bigram_counts[(word, w)]] where the key is present, 0 otherwise. *)
Definition count_of (bc : dict bigram_key Z) (word w : Token) : Z :=
  match dict_get (KTuple word w) bc with
  | Some c => c
  | None => 0
  end.

(** The value of [total_count] for [word] and the successors [ws]. *)
Definition total_of (bc : dict bigram_key Z) (word : Token)
    (ws : list Token) : Z :=
  fold_left (fun acc w => acc + count_of bc word w) ws 0.

(** The increments [count / total_count] of one distribution as exact
    rationals. *)
Definition exact_increments (bc : dict bigram_key Z) (word : Token)
    (ws : list Token) : list Q :=
  map (fun w => (inject_Z (count_of bc word w)
                 / inject_Z (total_of bc word ws))%Q) ws.

Definition Qsum (l : list Q) : Q := fold_right Qplus 0%Q l.

(* ------------------------------------------------------------------ *)
(** ** What the builder computes, as functions of the counts *)

(** The dictionary that [get_following_words] returns on tuple keys: each
    predecessor with the set of its successors, elements in the order they
    were added. *)
Definition following_spec (bc : dict bigram_key Z) : dict Token pyset :=
  map (fun P => (P, first_observation_order bc P)) (predecessors bc).

(** The pairs appended by the inner loop, from the running sum [cum]. *)
Fixpoint cumulate (bc : dict bigram_key Z) (word : Token) (total : Z)
    (ws : list Token) (cum : float) : distribution :=
  match ws with
  | [] => []
  | w :: r =>
      let cum' :=
        (cum + float_of_Z (count_of bc word w) / float_of_Z total)%float in
      (w, cum') :: cumulate bc word total r cum'
  end.

(** The distribution of [word] when its successor set iterates as [ws]. *)
Definition distribution_of (bc : dict bigram_key Z) (word : Token)
    (ws : list Token) : distribution :=
  cumulate bc word (total_of bc word ws) ws 0%float.

(** The distributions after a run of the builder that started from the
    distributions [cp]: every predecessor, in first-observation order, gets
    the distribution of its successor set. *)
Definition built_distributions {rt : PyRuntime} (bc : dict bigram_key Z)
    (cp : dict Token distribution) : dict Token distribution :=
  fold_left
    (fun cp P =>
       dict_set P
         (distribution_of bc P (set_iter (first_observation_order bc P))) cp)
    (predecessors bc) cp.

(** The dictionary that [sample] returns when it generates nothing. *)
Definition empty_completion : Completion :=
  {| completion := EmptyString; tokens := [] |}.

(* ------------------------------------------------------------------ *)
(** ** Worlds *)

(** A fresh instance in a world without model files. *)
Definition world0 {rt : PyRuntime} (g : RandomState) : World :=
  {| self := init; random_state := g; model_files := [] |}.

(** A world whose instance holds the given counts and no distributions yet. *)
Definition world_of_counts {rt : PyRuntime} (g : RandomState)
    (bc : dict bigram_key Z) : World :=
  {| self := {| bigram_counts := bc; word_counts := [];
                cumulative_probs := [] |};
     random_state := g; model_files := [] |}.

(** The worlds reached from a fresh instance by calls of [train], [sample]
    and [save_model]. *)
Inductive trained {rt : PyRuntime} : World -> Prop :=
| trained_init (g : RandomState) (fs : dict string file_content) :
    trained {| self := init; random_state := g; model_files := fs |}
| trained_train (w : World) (corpus : list string) :
    trained w -> trained (snd (train corpus w))
| trained_sample (w : World) (prefix : string) (max_tokens : Z)
    (seed : option Z) :
    trained w -> trained (snd (sample prefix max_tokens seed w))
| trained_save (w : World) (model_file : string) :
    trained w -> trained (snd (save_model model_file w)).

(** Every successor listed in a distribution was counted after its
    predecessor. *)
Definition sound_distributions {rt : PyRuntime} (w : World) : Prop :=
  forall P dist s,
    dict_get P (cumulative_probs (self w)) = Some dist ->
    In s (map fst dist) ->
    exists c, In (KTuple P s, c) (bigram_counts (self w)).

(** The invariant of the instance between method calls. *)
Definition well_formed {rt : PyRuntime} (w : World) : Prop :=
  tuple_keys (bigram_counts (self w)) = true
  /\ positive_counts (bigram_counts (self w)) = true
  /\ sound_distributions w.

(** The world after training a fresh instance on [a b a b a c]. *)
Definition abc_world {rt : PyRuntime} (g : RandomState) : World :=
  snd (train ["a b a b a c"] (world0 g)).

(** The world after training a fresh instance on the one line [a b]. *)
Definition ab_world {rt : PyRuntime} (g : RandomState) : World :=
  snd (train ["a b"] (world0 g)).

(** Counts of a predecessor [p] seen 3 times before [x] and once before
    [y], [x] first. *)
Definition xy_counts : dict bigram_key Z :=
  [(KTuple "p" "x", 3); (KTuple "p" "y", 1)].

(* ------------------------------------------------------------------ *)
(** ** Reading a corpus and a completion *)

(** The pairs [(l[i], l[i+1])] of a token list. *)
Definition adjacent (toks : list Token) : list (Token * Token) :=
  combine toks (tl toks).

(** The tokens that [train] and [sample] see in a line of text. *)
Definition line_tokens (line : string) : list Token :=
  tokenize (lower (strip line)).

(** All tokens, and all adjacent pairs, of the lines of a corpus. *)
Definition corpus_words (corpus : list string) : list Token :=
  flat_map line_tokens corpus.

Definition corpus_bigrams (corpus : list string) : list (Token * Token) :=
  flat_map (fun line => adjacent (line_tokens line)) corpus.

Definition bigram_dec (p q : Token * Token) : {p = q} + {p <> q}.
Proof. decide equality; apply string_dec. Defined.

Arguments bigram_dec : simpl never.

(** [word_counts.get(t, 0)]. *)
Definition word_count_of (wc : dict Token Z) (t : Token) : Z :=
  match dict_get t wc with
  | Some c => c
  | None => 0
  end.

(* ------------------------------------------------------------------ *)
(** ** The two shapes of a token *)

Fixpoint all_chars (p : ascii -> bool) (s : string) : bool :=
  match s with
  | EmptyString => true
  | String c r => (p c && all_chars p r)%bool
  end.

(** A bare word: one or more word characters. *)
Definition word_token (t : Token) : Prop :=
  t <> EmptyString /\ all_chars is_word t = true.

(** A quoted attribute: a bare word, [=], and a value between double quotes
    that holds no double quote. *)
Definition quoted_token (t : Token) : Prop :=
  exists k v,
    t = (k ++ String "=" (String dquote v) ++ String dquote EmptyString)%string
    /\ word_token k /\ all_chars not_dquote v = true.

(** What follows a greedy run: nothing, or a character outside the class. *)
Definition stops (p : ascii -> bool) (s : string) : Prop :=
  match s with
  | EmptyString => True
  | String c _ => p c = false
  end.

(** No upper-case ASCII letter. *)
Definition lowercase (t : string) : Prop :=
  all_chars (fun c => negb (in_range 65 90 c)) t = true.

(** Every token stored in the two dictionaries of counts is lower case. *)
Definition lowercase_counts {rt : PyRuntime} (w : World) : Prop :=
  (forall t c, In (t, c) (word_counts (self w)) -> lowercase t)
  /\ (forall a b c,
        In (KTuple a b, c) (bigram_counts (self w)) ->
        lowercase a /\ lowercase b).

(* ------------------------------------------------------------------ *)
(** ** Auxiliary notions of the further properties *)

(** A computation that neither reads nor writes [cumulative_probs]. *)
Definition cp_blind {rt : PyRuntime} {A} (c : M A) : Prop :=
  forall d (w : World),
    c (with_cumulative_probs d w)
    = (fst (c w), with_cumulative_probs d (snd (c w))).

(** The sets collected so far: non-empty, without repetition, and holding
    exactly the successors that the scanned keys unpack to. *)
Definition collects (items : list (bigram_key * Z)) (fw : dict Token pyset)
  : Prop :=
  forall P,
    match dict_get P fw with
    | Some succs =>
        succs <> [] /\ NoDup succs
        /\ forall s, In s succs <->
                     exists k c, In (k, c) items /\ unpack k = Ok (P, s)
    | None => forall s k c, In (k, c) items -> unpack k <> Ok (P, s)
    end.

(** The keys as [json.load] gives them back. *)
Definition loaded_counts (items : dict string Z) : dict bigram_key Z :=
  map (fun kv => (KStr (fst kv), snd kv)) items.

(* ------------------------------------------------------------------ *)
(** ** Binary64 values *)

(** The rational number that a float stands for, read off its decoding
    [Prim2SF]: [(-1)^s * m * 2^e] for a finite float; an infinity and NaN
    stand for none. *)
Definition float_value (f : float) : option Q :=
  match Prim2SF f with
  | S754_zero _ => Some 0%Q
  | S754_finite s m e => Some (inject_Z (cond_Zopp s (Zpos m)) * 2 ^ e)%Q
  | _ => None
  end.

(** [dist[-1][1]]: the final cumulative value of a distribution. *)
Fixpoint final_cumulative (dist : distribution) : option float :=
  match dist with
  | [] => None
  | [(_, c)] => Some c
  | _ :: r => final_cumulative r
  end.

(** The floating-point tolerance of a sum of [n] quotients: [n] times
    [2^-52], the distance from 1.0 to the next float. *)
Definition tolerance (n : nat) : Q :=
  (inject_Z (Z.of_nat n) / inject_Z (2 ^ 52))%Q.

(** The value of [cumulative_probability] after the inner loop has gone
    through the successors [ws], starting from [cum]. *)
Definition running_sum (bc : dict bigram_key Z) (word : Token) (total : Z)
    (ws : list Token) (cum : float) : float :=
  fold_left
    (fun cum w =>
       (cum + float_of_Z (count_of bc word w) / float_of_Z total)%float)
    ws cum.

(** A non-negative float in units of [2^-1074], the spacing of the smallest
    binary64 numbers: [represents x V] when [x] is positive zero or a
    positive finite float and its value is [V * 2^-1074]. *)
Definition represents (x : spec_float) (V : Z) : Prop :=
  match x with
  | S754_zero false => V = 0
  | S754_finite false m e => -1074 <= e /\ V = Zpos m * 2 ^ (e + 1074)
  | _ => False
  end.

(** The shift register of [SpecFloat.shr] while it holds the number [N / D]:
    the mantissa is the integer part, the round bit tells whether the rest
    is at least one half, the sticky bit whether the rest is neither zero
    nor one half. *)
Definition shr_inv (N D : Z) (mrs : shr_record) : Prop :=
  0 < D /\ 0 <= shr_m mrs /\ 0 <= N - shr_m mrs * D < D
  /\ (shr_r mrs = true <-> D <= 2 * (N - shr_m mrs * D))
  /\ (shr_s mrs = true <->
      N - shr_m mrs * D <> 0 /\ 2 * (N - shr_m mrs * D) <> D).

(** The same for a mantissa [m] with the location [l] of the rest. *)
Definition loc_inv (N D m : Z) (l : location) : Prop :=
  0 < D /\ 0 <= m /\ 0 <= N - m * D < D
  /\ match l with
     | loc_Exact => N - m * D = 0
     | loc_Inexact Lt => 0 < 2 * (N - m * D) < D
     | loc_Inexact Eq => 2 * (N - m * D) = D
     | loc_Inexact Gt => D < 2 * (N - m * D)
     end.

(* ------------------------------------------------------------------ *)
(** ** A model restored from its file *)

(** The document that [save_model] writes after training on the single
    line [a]. *)
Definition saved_a : file_content :=
  JsonText {| md_bigram_counts := []; md_word_counts := [("a", 1)] |}.

(** The world after a fresh instance was trained on the line [a], saved to
    [model_file], trained on the line [a b] and restored from
    [model_file]. *)
Definition reloaded_world {rt : PyRuntime} (g : RandomState)
    (model_file : string) : World :=
  snd (load_model model_file
         (snd (train ["a b"]
                 (snd (save_model model_file
                         (snd (train ["a"] (world0 g)))))))).

(* ================================================================== *)
(** * Properties *)

(* ------------------------------------------------------------------ *)
(** ** The tokenizer *)

Module TokenizerFacts.

Lemma span_length p s :
  (String.length (fst (span p s)) + String.length (snd (span p s))
   = String.length s)%nat.
Proof.
  induction s as [| c r IH]; simpl; [reflexivity |].
  destruct (p c); simpl; [| reflexivity].
  destruct (span p r) as [a b]; simpl in *. now rewrite IH.
Qed.

Lemma match_word_shorter s tok rest :
  match_word s = Some (tok, rest) ->
  tok <> EmptyString /\ (String.length rest < String.length s)%nat.
Proof.
  unfold match_word. pose proof (span_length is_word s) as L.
  destruct (span is_word s) as [w r]; simpl in L.
  destruct w as [| c w']; [discriminate |].
  intros [= <- <-]. split; [discriminate |]. simpl in L. lia.
Qed.

Lemma match_quoted_shorter s tok rest :
  match_quoted s = Some (tok, rest) ->
  tok <> EmptyString /\ (String.length rest < String.length s)%nat.
Proof.
  unfold match_quoted. pose proof (span_length is_word s) as L.
  destruct (span is_word s) as [w r]; simpl in L.
  destruct w as [| c w']; [discriminate |].
  destruct r as [| e [| q r1]]; try discriminate.
  destruct (Ascii.eqb e "=" && Ascii.eqb q dquote)%bool; [| discriminate].
  pose proof (span_length not_dquote r1) as L1.
  destruct (span not_dquote r1) as [v r2]; simpl in L1.
  destruct r2 as [| q' r3]; [discriminate |].
  destruct (Ascii.eqb q' dquote); [| discriminate].
  intros [= <- <-]. split; [discriminate |]. simpl in *. lia.
Qed.

Lemma match_token_shorter s tok rest :
  match_token s = Some (tok, rest) ->
  tok <> EmptyString /\ (String.length rest < String.length s)%nat.
Proof.
  unfold match_token. destruct (match_quoted s) as [m |] eqn:Q.
  - intros [= ->]. now apply match_quoted_shorter.
  - apply match_word_shorter.
Qed.

(** With more fuel than characters the scan reaches the end of the text. *)
Lemma findall_enough fuel :
  forall s, (String.length s < fuel)%nat ->
            exists toks, findall fuel s = Some toks
                         /\ Forall (fun t => t <> EmptyString) toks.
Proof.
  induction fuel as [| fuel IH]; intros s Hlt; [lia |].
  destruct s as [| c r]; simpl.
  - exists []. split; [reflexivity | constructor].
  - destruct (match_token (String c r)) as [[tok rest] |] eqn:E.
    + apply match_token_shorter in E as [Hne Hlen].
      destruct (IH rest) as (toks & -> & Hall); [simpl in *; lia |].
      exists (tok :: toks). split; [reflexivity | now constructor].
    + apply IH. simpl in Hlt. lia.
Qed.

End TokenizerFacts.

(** C8. [tokenize] keeps the quoted attribute of the docstring's example as
    one token (also when the quoted part holds spaces), gives no token for the
    empty text, and is total: on every
    text the scan ends within the fuel [tokenize] gives it, and what it
    returns is the list of matches, none of them empty. *)
Theorem tokenize_examples_and_total :
  tokenize journal_text = ["open"; journal_token]
  /\ tokenize ("run " ++ spaced_token ++ " now")%string
     = ["run"; spaced_token; "now"]
  /\ tokenize EmptyString = []
  /\ forall text,
       exists toks,
         findall (S (String.length text)) text = Some toks
         /\ tokenize text = toks
         /\ Forall (fun t => t <> EmptyString) toks.
Proof.
  split; [reflexivity |]. split; [reflexivity |]. split; [reflexivity |].
  intros text.
  destruct (TokenizerFacts.findall_enough (S (String.length text)) text)
    as (toks & E & Hall); [lia |].
  exists toks. unfold tokenize. rewrite E. auto.
Qed.

(* ------------------------------------------------------------------ *)
(** ** The sampler *)

Ltac run_monad :=
  unfold bind, read, ret, raise, lift, update, random_seed, random_random,
    last_item in *; simpl in *.

Section SamplerFacts.
Context {rt : PyRuntime}.

Lemma skipn_length_app {A} (l g : list A) :
  skipn (List.length l) (l ++ g) = g.
Proof. induction l; simpl; auto. Qed.

Lemma last_item_snoc (l : list Token) (t : Token) (w : World) :
  last_item (l ++ [t]) w = (Ok t, w).
Proof. unfold last_item. rewrite rev_app_distr. reflexivity. Qed.

(** The loop touches nothing but the generator. *)
Lemma sample_loop_frame (rounds : nat) :
  forall completion w,
    self (snd (sample_loop rounds completion w)) = self w
    /\ model_files (snd (sample_loop rounds completion w)) = model_files w.
Proof.
  induction rounds as [| n IH]; intros comp w; simpl; [now split |].
  run_monad. destruct (rev comp) as [| t _]; simpl; [now split |].
  destruct (dict_get t (cumulative_probs (self w))) as [dist |]; simpl;
    [| now split].
  destruct (next_random (random_state w)) as [x g]; simpl.
  destruct (pick x dist) as [word |]; simpl; [| now split].
  destruct (IH (comp ++ [word]) (with_random_state g w)) as [E1 E2].
  now rewrite E1, E2.
Qed.

(** What the loop returns, and the generator it leaves, are determined by the
    instance and the generator it starts from. *)
Lemma sample_loop_ext (rounds : nat) :
  forall completion w w',
    self w = self w' -> random_state w = random_state w' ->
    fst (sample_loop rounds completion w)
    = fst (sample_loop rounds completion w')
    /\ random_state (snd (sample_loop rounds completion w))
       = random_state (snd (sample_loop rounds completion w')).
Proof.
  induction rounds as [| n IH]; intros comp w w' Es Eg; simpl; [now split |].
  run_monad. destruct (rev comp) as [| t _]; simpl; [now split |].
  rewrite <- Es.
  destruct (dict_get t (cumulative_probs (self w))) as [dist |]; simpl;
    [| now split].
  rewrite <- Eg.
  destruct (next_random (random_state w)) as [x g]; simpl.
  destruct (pick x dist) as [word |]; simpl; [| now split].
  apply IH; simpl; auto.
Qed.

Lemma pick_In rand dist word :
  pick rand dist = Some word -> In word (map fst dist).
Proof.
  induction dist as [| [t c] r IH]; simpl; [discriminate |].
  destruct (PrimFloat.ltb rand c).
  - intros [= ->]. now left.
  - intros E. right. now apply IH.
Qed.

(** The loop only ever extends the completion it is given, and with words
    listed in some distribution of the instance. *)
Lemma sample_loop_extends (rounds : nat) :
  forall completion w out,
    fst (sample_loop rounds completion w) = Ok out ->
    exists generated,
      out = completion ++ generated
      /\ forall t, In t generated ->
           exists P dist,
             dict_get P (cumulative_probs (self w)) = Some dist
             /\ In t (map fst dist).
Proof.
  induction rounds as [| n IH]; intros comp w out; simpl.
  - intros [= <-]. exists []. rewrite app_nil_r. split; [auto | intros t []].
  - run_monad. destruct (rev comp) as [| t _]; simpl; [discriminate |].
    destruct (dict_get t (cumulative_probs (self w))) as [dist |] eqn:D;
      simpl.
    2:{ intros [= <-]. exists []. rewrite app_nil_r.
        split; [auto | intros ? []]. }
    destruct (next_random (random_state w)) as [x g]; simpl.
    destruct (pick x dist) as [word |] eqn:Pk; simpl.
    2:{ intros [= <-]. exists []. rewrite app_nil_r.
        split; [auto | intros ? []]. }
    intros E. apply IH in E as (gen & -> & Hgen). exists (word :: gen).
    split; [now rewrite <- app_assoc |].
    intros t' [<- | I].
    + exists t, dist. split; [assumption | now apply (pick_In x)].
    + apply Hgen in I. exact I.
Qed.

(** The loop raises only when it is handed no token at all. *)
Lemma sample_loop_raises (rounds : nat) :
  forall completion w e,
    fst (sample_loop rounds completion w) = Raise e ->
    e = IndexError /\ completion = [].
Proof.
  induction rounds as [| n IH]; intros comp w e; simpl; [discriminate |].
  run_monad. destruct (rev comp) as [| t r] eqn:R; simpl.
  - intros [= <-]. split; [reflexivity |].
    apply (f_equal (@rev _)) in R. now rewrite rev_involutive in R.
  - destruct (dict_get t (cumulative_probs (self w))) as [dist |]; simpl;
      [| discriminate].
    destruct (next_random (random_state w)) as [x g]; simpl.
    destruct (pick x dist) as [word |]; simpl; [| discriminate].
    intros E. apply IH in E as [_ E]. now destruct comp.
Qed.

(** The result of [sample] in terms of the loop. *)
Lemma sample_unfold prefix max_tokens seed w :
  let toks := tokenize (lower (strip prefix)) in
  let w0 := match seed with
            | Some s => with_random_state (seed_state s) w
            | None => w
            end in
  sample prefix max_tokens seed w
  = match sample_loop (Z.to_nat max_tokens) toks w0 with
    | (Ok out, w') =>
        (Ok {| completion := join " " (skipn (List.length toks) out);
               tokens := skipn (List.length toks) out |}, w')
    | (Raise e, w') => (Raise e, w')
    end.
Proof.
  unfold sample. destruct seed; run_monad; reflexivity.
Qed.

(** [sample] changes nothing but the generator. *)
Lemma sample_frame prefix max_tokens seed w :
  self (snd (sample prefix max_tokens seed w)) = self w
  /\ model_files (snd (sample prefix max_tokens seed w)) = model_files w.
Proof.
  rewrite sample_unfold. simpl.
  set (w0 := match seed with
             | Some s => with_random_state (seed_state s) w
             | None => w
             end).
  assert (Hself : self w0 = self w) by (subst w0; now destruct seed).
  assert (Hfiles : model_files w0 = model_files w)
    by (subst w0; now destruct seed).
  destruct (sample_loop_frame (Z.to_nat max_tokens)
              (tokenize (lower (strip prefix))) w0) as [E1 E2].
  destruct (sample_loop (Z.to_nat max_tokens)
              (tokenize (lower (strip prefix))) w0) as [[out | e] w1];
    simpl in *; rewrite E1, E2, Hself, Hfiles; auto.
Qed.

End SamplerFacts.

(** C6. With [max_tokens = 0] the loop body never runs: whatever the prefix
    (also one without tokens), the seed and the state of the world, [sample]
    returns the empty completion text and the empty token list. *)
Theorem sample_zero_tokens {rt : PyRuntime} :
  forall (w : World) (prefix : string) (seed : option Z),
    fst (sample prefix 0 seed w) = Ok empty_completion.
Proof.
  intros w prefix seed. rewrite sample_unfold. simpl.
  rewrite <- (app_nil_r (tokenize (lower (strip prefix)))) at 2 4.
  rewrite skipn_length_app. reflexivity.
Qed.

(** C7. When the prefix has tokens and the last of them has no entry in
    [cumulative_probs], [sample] stops at once and returns, without raising,
    the empty completion text and the empty token list, for every
    [max_tokens] and seed. *)
Theorem sample_unknown_context {rt : PyRuntime} :
  forall (w : World) (prefix : string) (max_tokens : Z) (seed : option Z)
         (before : list Token) (last_word : Token),
    tokenize (lower (strip prefix)) = before ++ [last_word] ->
    dict_get last_word (cumulative_probs (self w)) = None ->
    fst (sample prefix max_tokens seed w) = Ok empty_completion.
Proof.
  intros w prefix max_tokens seed before last_word Htok Hnone.
  rewrite sample_unfold. simpl. rewrite Htok.
  set (w0 := match seed with
             | Some s => with_random_state (seed_state s) w
             | None => w
             end).
  assert (Hself : self w0 = self w) by (subst w0; now destruct seed).
  assert (L : sample_loop (Z.to_nat max_tokens) (before ++ [last_word]) w0
              = (Ok (before ++ [last_word]), w0)).
  { destruct (Z.to_nat max_tokens) as [| n]; simpl; [reflexivity |].
    unfold bind. rewrite last_item_snoc. unfold read. rewrite Hself, Hnone.
    reflexivity. }
  rewrite L. simpl.
  rewrite <- (app_nil_r (before ++ [last_word])) at 2 4.
  rewrite skipn_length_app. reflexivity.
Qed.

Lemma sample_unknown_context_witness :
  tokenize (lower (strip " A  zz ")) = ["a"] ++ ["zz"]
  /\ dict_get "zz"
       (cumulative_probs (self (abc_world (rt := slot_runtime) 3))) = None
  /\ fst (sample " A  zz " 4 (Some 42) (abc_world (rt := slot_runtime) 3))
     = Ok empty_completion.
Proof.
  split; [reflexivity |]. split; [reflexivity |].
  apply (sample_unknown_context (abc_world (rt := slot_runtime) 3)
           " A  zz " 4 (Some 42) ["a"] "zz"); reflexivity.
Defined.

(** C9. [sample] leaves the instance as it found it: [bigram_counts],
    [word_counts] and [cumulative_probs] are the same after the call as
    before, whether it returns or raises (and so are the model files). *)
Theorem sample_preserves_model {rt : PyRuntime} :
  forall (w : World) (prefix : string) (max_tokens : Z) (seed : option Z),
    let w' := snd (sample prefix max_tokens seed w) in
    bigram_counts (self w') = bigram_counts (self w)
    /\ word_counts (self w') = word_counts (self w)
    /\ cumulative_probs (self w') = cumulative_probs (self w)
    /\ model_files w' = model_files w.
Proof.
  intros w prefix max_tokens seed w'.
  destruct (sample_frame prefix max_tokens seed w) as [E1 E2].
  subst w'. now rewrite E1, E2.
Qed.

(** C4. A seeded call of [sample] is a function of the instance, the prefix,
    [max_tokens] and the seed: it gives the same result whatever the state of
    the generator and of the files it starts from, and so a second seeded call
    made after a first one returns (or raises) exactly what the first did. *)
Theorem sample_seeded_deterministic {rt : PyRuntime} :
  forall (w : World) (prefix : string) (max_tokens : Z) (seed : Z),
    (forall g fs,
        fst (sample prefix max_tokens (Some seed)
               {| self := self w; random_state := g; model_files := fs |})
        = fst (sample prefix max_tokens (Some seed) w))
    /\ fst (sample prefix max_tokens (Some seed)
              (snd (sample prefix max_tokens (Some seed) w)))
       = fst (sample prefix max_tokens (Some seed) w).
Proof.
  intros w prefix max_tokens seed.
  assert (G : forall w1 w2, self w1 = self w2 ->
              fst (sample prefix max_tokens (Some seed) w1)
              = fst (sample prefix max_tokens (Some seed) w2)).
  { intros w1 w2 E. rewrite !sample_unfold. simpl.
    destruct (sample_loop_ext (Z.to_nat max_tokens)
                (tokenize (lower (strip prefix)))
                (with_random_state (seed_state seed) w1)
                (with_random_state (seed_state seed) w2)) as [E1 _];
      [exact E | reflexivity |].
    destruct (sample_loop _ _ (with_random_state (seed_state seed) w1))
      as [[o1 | e1] w1'],
      (sample_loop _ _ (with_random_state (seed_state seed) w2))
      as [[o2 | e2] w2']; simpl in *; congruence. }
  split.
  - intros g fs. apply G. reflexivity.
  - apply G. rewrite sample_unfold. simpl.
    destruct (sample_loop_frame (Z.to_nat max_tokens)
                (tokenize (lower (strip prefix)))
                (with_random_state (seed_state seed) w)) as [E1 _].
    destruct (sample_loop _ _ _) as [[o | e] w1]; simpl in *; exact E1.
Qed.

(** C1 (what the code does).  A prefix without tokens and [max_tokens >= 1]:
    the first round reads [completion[-1]] of the empty list and [sample]
    raises [IndexError]; here for the empty prefix and a blank one, with the
    default [max_tokens = 10]. *)
Theorem sample_empty_prefix_raises {rt : PyRuntime} :
  forall (w : World) (seed : option Z),
    fst (sample EmptyString 10 seed w) = Raise IndexError
    /\ fst (sample "   " 1 seed w) = Raise IndexError.
Proof.
  intros w seed. rewrite !sample_unfold. simpl. split; reflexivity.
Qed.

(** The same for every prefix without tokens and every positive
    [max_tokens]. *)
Lemma sample_no_tokens_raises {rt : PyRuntime} :
  forall (w : World) (prefix : string) (max_tokens : Z) (seed : option Z),
    tokenize (lower (strip prefix)) = [] -> 0 < max_tokens ->
    fst (sample prefix max_tokens seed w) = Raise IndexError.
Proof.
  intros w prefix max_tokens seed Htok Hpos. rewrite sample_unfold. simpl.
  rewrite Htok. destruct (Z.to_nat max_tokens) as [| n] eqn:E; [lia |].
  reflexivity.
Qed.

(* ------------------------------------------------------------------ *)
(** ** Dictionaries and first occurrences *)

Section DictFacts.
Context {K V : Type} `{EqKey K}.

Lemma key_eqb_refl (k : K) : key_eqb k k = true.
Proof. destruct (key_eqb_spec k k); congruence. Qed.

Lemma key_eqb_neq (k k' : K) : k <> k' -> key_eqb k k' = false.
Proof. destruct (key_eqb_spec k k'); congruence. Qed.

Lemma dict_get_set_same (k : K) (v : V) (d : dict K V) :
  dict_get k (dict_set k v d) = Some v.
Proof.
  induction d as [| [k' v'] r IH]; simpl.
  - now rewrite key_eqb_refl.
  - destruct (key_eqb_spec k k') as [<- | N]; simpl.
    + now rewrite key_eqb_refl.
    + now rewrite key_eqb_neq.
Qed.

Lemma dict_get_set_other (k k' : K) (v : V) (d : dict K V) :
  k <> k' -> dict_get k (dict_set k' v d) = dict_get k d.
Proof.
  intros N. induction d as [| [k2 v2] r IH]; simpl.
  - now rewrite key_eqb_neq.
  - destruct (key_eqb_spec k' k2) as [<- | N2]; simpl.
    + now rewrite key_eqb_neq.
    + now rewrite IH.
Qed.

Lemma dict_set_set (k : K) (v v' : V) (d : dict K V) :
  dict_set k v (dict_set k v' d) = dict_set k v d.
Proof.
  induction d as [| [k2 v2] r IH]; simpl.
  - now rewrite key_eqb_refl.
  - destruct (key_eqb_spec k k2) as [<- | N]; simpl.
    + now rewrite key_eqb_refl.
    + rewrite key_eqb_neq by assumption. now rewrite IH.
Qed.

Lemma dict_set_get_same (k : K) (v : V) (d : dict K V) :
  dict_get k d = Some v -> dict_set k v d = d.
Proof.
  induction d as [| [k2 v2] r IH]; simpl; [discriminate |].
  destruct (key_eqb k k2); [congruence |]. intros E. now rewrite IH.
Qed.

Lemma dict_set_fresh (k : K) (v : V) (d : dict K V) :
  dict_get k d = None -> dict_set k v d = d ++ [(k, v)].
Proof.
  induction d as [| [k2 v2] r IH]; simpl; [reflexivity |].
  destruct (key_eqb k k2); [discriminate |]. intros E. now rewrite IH.
Qed.

Lemma dict_get_In (k : K) (v : V) (d : dict K V) :
  dict_get k d = Some v -> In (k, v) d.
Proof.
  induction d as [| [k2 v2] r IH]; simpl; [discriminate |].
  destruct (key_eqb_spec k k2) as [<- | N].
  - intros [= ->]. now left.
  - intros E. right. now apply IH.
Qed.

Lemma In_dict_get (k : K) (v : V) (d : dict K V) :
  In (k, v) d -> exists v', dict_get k d = Some v' /\ In (k, v') d.
Proof.
  induction d as [| [k2 v2] r IH]; simpl; [tauto |].
  intros [E | I].
  - inversion E; subst. rewrite key_eqb_refl. eauto.
  - destruct (key_eqb_spec k k2) as [<- | N]; [eauto |].
    destruct (IH I) as (v' & E & I'). eauto.
Qed.

End DictFacts.

Section FirstOccurrences.

Lemma existsb_eqb_In (x : Token) (l : list Token) :
  existsb (String.eqb x) l = true <-> In x l.
Proof.
  rewrite existsb_exists. split.
  - intros (y & I & E). apply String.eqb_eq in E. now subst.
  - intros I. exists x. split; [assumption | apply String.eqb_refl].
Qed.

Lemma set_add_In (x : Token) (s : pyset) : In x s -> set_add x s = s.
Proof.
  intros I. unfold set_add. apply existsb_eqb_In in I. now rewrite I.
Qed.

Lemma set_add_fresh (x : Token) (s : pyset) :
  ~ In x s -> set_add x s = s ++ [x].
Proof.
  intros N. unfold set_add.
  destruct (existsb (String.eqb x) s) eqn:E; [| reflexivity].
  apply existsb_eqb_In in E. contradiction.
Qed.

Lemma first_occurrences_In (x : Token) (l : list Token) :
  In x (first_occurrences l) <-> In x l.
Proof.
  induction l as [| y r IH]; simpl; [tauto |].
  rewrite filter_In, IH, negb_true_iff, String.eqb_neq.
  destruct (String.eqb_spec y x) as [-> | N]; [tauto |].
  split; [tauto |]. intros [E | I]; [tauto |]. right. split; congruence.
Qed.

Lemma first_occurrences_NoDup (l : list Token) : NoDup (first_occurrences l).
Proof.
  induction l as [| y r IH]; simpl; constructor.
  - rewrite filter_In, String.eqb_refl. simpl. intros [_ E]. discriminate.
  - now apply NoDup_filter.
Qed.

(** Scanning one more element is [set.add] on what was collected. *)
Lemma first_occurrences_snoc (l : list Token) (x : Token) :
  first_occurrences (l ++ [x]) = set_add x (first_occurrences l).
Proof.
  induction l as [| y r IH]; simpl; [reflexivity |].
  rewrite IH.
  destruct (in_dec string_dec x (first_occurrences r)) as [I | N].
  - rewrite (set_add_In _ _ I). symmetry. apply set_add_In.
    destruct (String.eqb_spec x y) as [-> | Nxy]; [now left |].
    right. apply filter_In. split; [assumption |].
    apply negb_true_iff. now apply String.eqb_neq.
  - rewrite (set_add_fresh _ _ N), filter_app. simpl.
    destruct (String.eqb_spec x y) as [-> | Nxy]; simpl.
    + rewrite app_nil_r. symmetry. apply set_add_In. now left.
    + symmetry. rewrite app_comm_cons. apply set_add_fresh.
      intros [E | I]; [congruence |]. apply filter_In in I. tauto.
Qed.

End FirstOccurrences.

(* ------------------------------------------------------------------ *)
(** ** [get_following_words] *)

Section FollowingFacts.

Lemma observed_snoc bc a b c :
  observed (bc ++ [(KTuple a b, c)]) = observed bc ++ [(a, b)].
Proof. unfold observed. rewrite flat_map_app. simpl. reflexivity. Qed.

Lemma predecessors_snoc bc a b c :
  predecessors (bc ++ [(KTuple a b, c)]) = set_add a (predecessors bc).
Proof.
  unfold predecessors. rewrite observed_snoc, map_app. simpl.
  apply first_occurrences_snoc.
Qed.

Lemma first_observation_order_snoc bc a b c P :
  first_observation_order (bc ++ [(KTuple a b, c)]) P
  = if String.eqb a P then set_add b (first_observation_order bc P)
    else first_observation_order bc P.
Proof.
  unfold first_observation_order, successors_observed.
  rewrite observed_snoc, filter_app, map_app. simpl.
  destruct (String.eqb a P); simpl.
  - apply first_occurrences_snoc.
  - now rewrite app_nil_r.
Qed.

Lemma successors_observed_In bc P s :
  In s (successors_observed bc P) <-> In (P, s) (observed bc).
Proof.
  unfold successors_observed. rewrite in_map_iff. split.
  - intros ([p s'] & E & I). simpl in E. subst s'.
    apply filter_In in I as [I E]. simpl in E. apply String.eqb_eq in E.
    now subst.
  - intros I. exists (P, s). split; [reflexivity |].
    apply filter_In. split; [assumption | apply String.eqb_refl].
Qed.

Lemma observed_In bc P s :
  In (P, s) (observed bc) <-> exists c, In (KTuple P s, c) bc.
Proof.
  unfold observed. rewrite in_flat_map. split.
  - intros ([k c] & I & E). destruct k as [a b |]; simpl in E; [| tauto].
    destruct E as [E | []]. inversion E; subst. eauto.
  - intros (c & I). exists (KTuple P s, c). simpl. auto.
Qed.

Lemma first_observation_order_In bc P s :
  In s (first_observation_order bc P) <-> exists c, In (KTuple P s, c) bc.
Proof.
  unfold first_observation_order.
  now rewrite first_occurrences_In, successors_observed_In, observed_In.
Qed.

Lemma predecessors_In bc P :
  In P (predecessors bc) <-> exists s c, In (KTuple P s, c) bc.
Proof.
  unfold predecessors. rewrite first_occurrences_In, in_map_iff. split.
  - intros ([p s] & E & I). simpl in E. subst p.
    apply observed_In in I. eauto.
  - intros (s & c & I). exists (P, s). split; [reflexivity |].
    apply observed_In. eauto.
Qed.

Lemma predecessor_has_successor bc P :
  In P (predecessors bc) -> first_observation_order bc P <> [].
Proof.
  intros I. apply predecessors_In in I as (s & c & I).
  assert (J : In s (first_observation_order bc P))
    by (apply first_observation_order_In; eauto).
  intros E. rewrite E in J. exact J.
Qed.

Lemma not_predecessor_no_successor bc P :
  ~ In P (predecessors bc) -> first_observation_order bc P = [].
Proof.
  intros N. destruct (first_observation_order bc P) as [| s r] eqn:E;
    [reflexivity |].
  exfalso. apply N. apply predecessors_In.
  assert (J : In s (first_observation_order bc P)) by (rewrite E; now left).
  apply first_observation_order_In in J as [c J]. eauto.
Qed.

(** Lookups and updates in a dictionary tabulated over distinct keys. *)
Lemma dict_get_tabulate {V} (f : Token -> V) (keys : list Token) (P : Token) :
  dict_get P (map (fun k => (k, f k)) keys)
  = if existsb (String.eqb P) keys then Some (f P) else None.
Proof.
  induction keys as [| k r IH]; simpl; [reflexivity |].
  destruct (String.eqb_spec P k) as [-> | N]; simpl; auto.
Qed.

Lemma dict_set_tabulate {V} (f : Token -> V) (keys : list Token)
    (P : Token) (v : V) :
  NoDup keys -> In P keys ->
  dict_set P v (map (fun k => (k, f k)) keys)
  = map (fun k => (k, if String.eqb P k then v else f k)) keys.
Proof.
  induction keys as [| k r IH]; simpl; [tauto |].
  intros ND I. inversion ND as [| ? ? Nk NDr]; subst.
  destruct (String.eqb_spec P k) as [-> | N]; simpl.
  - f_equal. apply map_ext_in. intros k' I'.
    destruct (String.eqb_spec k k') as [-> | _]; [contradiction | reflexivity].
  - f_equal. apply IH; [assumption |]. destruct I; congruence.
Qed.

Lemma dict_get_following_spec bc P :
  dict_get P (following_spec bc)
  = if existsb (String.eqb P) (predecessors bc)
    then Some (first_observation_order bc P) else None.
Proof. apply dict_get_tabulate. Qed.

(** One round of the loop of [get_following_words]. *)
Lemma following_step done a b c :
  (let fw := following_spec done in
   let fw1 := if dict_mem a fw then fw else dict_set a [] fw in
   match dict_get a fw1 with
   | Some s => Some (dict_set a (set_add b s) fw1)
   | None => None
   end) = Some (following_spec (done ++ [(KTuple a b, c)])).
Proof.
  cbv zeta. unfold dict_mem. rewrite dict_get_following_spec.
  destruct (existsb (String.eqb a) (predecessors done)) eqn:E.
  - rewrite dict_get_following_spec, E. f_equal.
    apply existsb_eqb_In in E.
    unfold following_spec.
    rewrite dict_set_tabulate;
      [| apply first_occurrences_NoDup | exact E].
    rewrite predecessors_snoc, (set_add_In _ _ E).
    apply map_ext. intros P. rewrite first_observation_order_snoc.
    now destruct (String.eqb_spec a P) as [-> | _].
  - assert (N : ~ In a (predecessors done)).
    { intros I. apply existsb_eqb_In in I. congruence. }
    assert (G : dict_get a (following_spec done) = None)
      by (rewrite dict_get_following_spec; now rewrite E).
    rewrite dict_get_set_same. f_equal.
    rewrite dict_set_set, (dict_set_fresh _ _ _ G).
    unfold following_spec.
    rewrite predecessors_snoc, (set_add_fresh _ _ N), map_app. simpl.
    rewrite first_observation_order_snoc, String.eqb_refl.
    rewrite (not_predecessor_no_successor _ _ N). f_equal.
    apply map_ext_in. intros P I. rewrite first_observation_order_snoc.
    destruct (String.eqb_spec a P) as [-> | _]; [contradiction | reflexivity].
Qed.

Context {rt : PyRuntime}.

Lemma following_loop_from done :
  forall rest,
    tuple_keys rest = true ->
    following_loop rest (following_spec done)
    = Ok (following_spec (done ++ rest)).
Proof.
  intros rest. revert done.
  induction rest as [| [k c] rest IH]; intros done T; simpl.
  - now rewrite app_nil_r.
  - unfold tuple_keys in T. simpl in T. apply andb_true_iff in T as [Hk T'].
    destruct k as [a b | s]; [| discriminate]. simpl.
    pose proof (following_step done a b c) as S. cbv zeta in S.
    destruct (dict_get a _) as [s |]; [| discriminate].
    injection S as ->. rewrite IH by assumption.
    now rewrite <- app_assoc.
Qed.

Lemma following_loop_spec bc :
  tuple_keys bc = true -> following_loop bc [] = Ok (following_spec bc).
Proof. intros T. apply (following_loop_from [] bc T). Qed.

End FollowingFacts.

(* ------------------------------------------------------------------ *)
(** ** [calculate_cumulative_probabilities] *)

Section BuilderFacts.
Context {rt : PyRuntime}.

Lemma positive_count_of bc word s c :
  positive_counts bc = true -> In (KTuple word s, c) bc ->
  dict_get (KTuple word s) bc = Some (count_of bc word s)
  /\ 1 <= count_of bc word s.
Proof.
  intros Pos I. unfold count_of.
  destruct (In_dict_get _ _ _ I) as (c' & E & I'). rewrite E.
  split; [reflexivity |].
  unfold positive_counts in Pos. rewrite forallb_forall in Pos.
  apply Z.leb_le, (Pos _ I').
Qed.

Lemma total_of_from bc word ws acc :
  fold_left (fun acc w => acc + count_of bc word w) ws acc
  = acc + total_of bc word ws.
Proof.
  unfold total_of. revert acc.
  induction ws as [| s r IH]; intros acc; simpl; [lia |].
  rewrite IH, (IH (count_of bc word s)). lia.
Qed.

Lemma total_of_cons bc word s r :
  total_of bc word (s :: r) = count_of bc word s + total_of bc word r.
Proof. unfold total_of at 1. simpl. apply total_of_from. Qed.

Lemma total_of_positive bc word ws :
  ws <> [] -> (forall s, In s ws -> 1 <= count_of bc word s) ->
  1 <= total_of bc word ws.
Proof.
  enough (G : (forall s, In s ws -> 1 <= count_of bc word s) ->
              Z.of_nat (List.length ws) <= total_of bc word ws).
  { intros N Hc. specialize (G Hc). destruct ws; [congruence |].
    simpl List.length in G. lia. }
  induction ws as [| s r IH]; intros Hc; [reflexivity |].
  rewrite total_of_cons. simpl List.length.
  specialize (Hc s (or_introl eq_refl)) as H1.
  specialize (IH (fun s' I => Hc s' (or_intror I))). lia.
Qed.

Lemma bind_ok {A B} (c : M A) (k : A -> M B) (w w' : World) (a : A) :
  c w = (Ok a, w') -> bind c k w = k a w'.
Proof. intros E. unfold bind. now rewrite E. Qed.

Lemma with_cumulative_probs_id (w : World) :
  with_cumulative_probs (cumulative_probs (self w)) w = w.
Proof. now destruct w as [[? ? ?] ? ?]. Qed.

Lemma lookup_count_ok key c (w : World) :
  dict_get key (bigram_counts (self w)) = Some c ->
  lookup_count key w = (Ok c, w).
Proof. intros E. unfold lookup_count, bind, read. now rewrite E. Qed.

Lemma sum_counts_spec word ws :
  forall acc (w : World),
    (forall s, In s ws ->
       dict_get (KTuple word s) (bigram_counts (self w))
       = Some (count_of (bigram_counts (self w)) word s)) ->
    sum_counts word ws acc w
    = (Ok (acc + total_of (bigram_counts (self w)) word ws), w).
Proof.
  induction ws as [| s r IH]; intros acc w Hk; simpl.
  - unfold ret, total_of. simpl. now rewrite Z.add_0_r.
  - rewrite (bind_ok _ _ _ _ _ (lookup_count_ok _ _ _
                                    (Hk s (or_introl eq_refl)))).
    rewrite IH by (intros s' I; apply Hk; now right).
    rewrite total_of_cons. f_equal. f_equal. lia.
Qed.

Lemma distribution_loop_spec word total ws :
  forall cum l (w : World),
    total <> 0 ->
    (forall s, In s ws ->
       dict_get (KTuple word s) (bigram_counts (self w))
       = Some (count_of (bigram_counts (self w)) word s)) ->
    dict_get word (cumulative_probs (self w)) = Some l ->
    distribution_loop word total ws cum w
    = (Ok tt,
       with_cumulative_probs
         (dict_set word
            (l ++ cumulate (bigram_counts (self w)) word total ws cum)
            (cumulative_probs (self w))) w).
Proof.
  induction ws as [| s r IH]; intros cum l w Ht Hk Hl;
    cbn [distribution_loop cumulate].
  - unfold ret. rewrite app_nil_r, dict_set_get_same by exact Hl.
    now rewrite with_cumulative_probs_id.
  - rewrite (bind_ok _ _ _ _ _ (lookup_count_ok _ _ _
                                    (Hk s (or_introl eq_refl)))).
    unfold lift, truediv.
    destruct (Z.eqb_spec total 0) as [| _]; [contradiction |].
    unfold bind at 1. unfold bind at 1.
    unfold append_cumulative, bind, read. rewrite Hl.
    unfold set_cumulative_probs, update.
    rewrite IH with (l := l ++ [(s, (cum + float_of_Z
                (count_of (bigram_counts (self w)) word s)
                / float_of_Z total)%float)]); simpl; auto.
    + rewrite dict_set_set, <- app_assoc. reflexivity.
    + intros s' I. apply Hk. now right.
    + apply dict_get_set_same.
Qed.

(** The body of the outer loop for one predecessor. *)
Lemma builder_round bc P (w : World) :
  bigram_counts (self w) = bc ->
  positive_counts bc = true -> In P (predecessors bc) ->
  (total_count <-
     sum_counts P (set_iter (first_observation_order bc P)) 0 ;;
   cp <- read (fun w => cumulative_probs (self w)) ;;
   set_cumulative_probs (dict_set P [] cp) ;;
   distribution_loop P total_count
     (set_iter (first_observation_order bc P)) 0%float) w
  = (Ok tt,
     with_cumulative_probs
       (dict_set P
          (distribution_of bc P (set_iter (first_observation_order bc P)))
          (cumulative_probs (self w))) w).
Proof.
  intros Ebc Pos I. subst bc.
  set (bc := bigram_counts (self w)) in *.
  set (ws := set_iter (first_observation_order bc P)).
  assert (Hin : forall s, In s ws -> exists c, In (KTuple P s, c) bc).
  { intros s J. apply first_observation_order_In.
    apply (Permutation_in _ (set_iter_perm _) J). }
  assert (Hk : forall s, In s ws ->
                 dict_get (KTuple P s) bc = Some (count_of bc P s)
                 /\ 1 <= count_of bc P s).
  { intros s J. destruct (Hin s J) as [c Hc].
    now apply (positive_count_of bc P s c). }
  assert (Hne : ws <> []).
  { intros E. apply (predecessor_has_successor bc P I).
    apply Permutation_nil. rewrite <- E. apply set_iter_perm. }
  assert (Ht : 1 <= total_of bc P ws)
    by (apply total_of_positive; [assumption | intros s J; apply Hk, J]).
  unfold bind at 1. rewrite sum_counts_spec by (intros s J; apply Hk, J).
  fold bc. simpl. unfold bind, read, set_cumulative_probs, update. simpl.
  rewrite distribution_loop_spec with (l := []); simpl.
  - rewrite dict_set_set. reflexivity.
  - lia.
  - intros s J. apply Hk, J.
  - apply dict_get_set_same.
Qed.

Lemma builder_rounds bc ps :
  forall (w : World),
    bigram_counts (self w) = bc -> positive_counts bc = true ->
    (forall P, In P ps -> In P (predecessors bc)) ->
    for_each (map (fun P => (P, first_observation_order bc P)) ps)
      (fun '(word, following_words) =>
         total_count <- sum_counts word (set_iter following_words) 0 ;;
         cp <- read (fun w => cumulative_probs (self w)) ;;
         set_cumulative_probs (dict_set word [] cp) ;;
         distribution_loop word total_count (set_iter following_words)
           0%float) w
    = (Ok tt,
       with_cumulative_probs
         (fold_left
            (fun cp P =>
               dict_set P
                 (distribution_of bc P
                    (set_iter (first_observation_order bc P))) cp)
            ps (cumulative_probs (self w))) w).
Proof.
  induction ps as [| P ps IH]; intros w Ebc Pos Hps; simpl.
  - unfold ret. now rewrite with_cumulative_probs_id.
  - unfold bind at 1.
    rewrite (builder_round bc P w Ebc Pos (Hps P (or_introl eq_refl))).
    rewrite IH; auto. intros P' I'. apply Hps. now right.
Qed.

(** The builder on well-formed counts: it returns, and the instance then
    holds [built_distributions]. *)
Lemma calculate_spec (w : World) :
  tuple_keys (bigram_counts (self w)) = true ->
  positive_counts (bigram_counts (self w)) = true ->
  calculate_cumulative_probabilities w
  = (Ok tt,
     with_cumulative_probs
       (built_distributions (bigram_counts (self w))
          (cumulative_probs (self w))) w).
Proof.
  intros T Pos. unfold calculate_cumulative_probabilities.
  unfold bind at 1. unfold get_following_words, bind, read, lift.
  rewrite (following_loop_spec _ T).
  unfold following_spec. apply builder_rounds; auto.
Qed.

End BuilderFacts.

(* ------------------------------------------------------------------ *)
(** ** The distributions that the builder leaves *)

Section BuiltFacts.
Context {rt : PyRuntime}.

Lemma cumulate_words bc word total ws cum :
  map fst (cumulate bc word total ws cum) = ws.
Proof.
  revert cum. induction ws as [| s r IH]; intros cum; simpl; [reflexivity |].
  now rewrite IH.
Qed.

Lemma distribution_of_words bc word ws :
  map fst (distribution_of bc word ws) = ws.
Proof. apply cumulate_words. Qed.

Lemma fold_dict_set_get {V} (f : Token -> V) (ps : list Token) :
  forall (acc : dict Token V) (P : Token),
    dict_get P (fold_left (fun cp Q => dict_set Q (f Q) cp) ps acc)
    = if existsb (String.eqb P) ps then Some (f P) else dict_get P acc.
Proof.
  induction ps as [| Q ps IH]; intros acc P; simpl; [reflexivity |].
  rewrite IH.
  destruct (existsb (String.eqb P) ps); [now rewrite orb_true_r |].
  rewrite orb_false_r.
  destruct (String.eqb_spec P Q) as [-> | N].
  - apply dict_get_set_same.
  - now apply dict_get_set_other.
Qed.

Lemma fold_dict_set_fresh {V} (f : Token -> V) (ps : list Token) :
  forall (acc : dict Token V),
    NoDup ps -> (forall P, In P ps -> dict_get P acc = None) ->
    fold_left (fun cp Q => dict_set Q (f Q) cp) ps acc
    = acc ++ map (fun Q => (Q, f Q)) ps.
Proof.
  induction ps as [| Q ps IH]; intros acc ND Hf; simpl.
  - now rewrite app_nil_r.
  - inversion ND as [| ? ? NQ ND']; subst.
    rewrite IH; auto.
    + rewrite dict_set_fresh by (apply Hf; now left).
      now rewrite <- app_assoc.
    + intros P I. rewrite dict_get_set_other by (intros ->; contradiction).
      apply Hf. now right.
Qed.

(** An entry of the built distributions: fresh for a predecessor, the old
    one otherwise. *)
Lemma built_distributions_get bc cp P :
  dict_get P (built_distributions bc cp)
  = if existsb (String.eqb P) (predecessors bc)
    then Some (distribution_of bc P
                 (set_iter (first_observation_order bc P)))
    else dict_get P cp.
Proof.
  unfold built_distributions.
  apply (fold_dict_set_get
           (fun Q => distribution_of bc Q
                       (set_iter (first_observation_order bc Q)))).
Qed.

Lemma built_distributions_fresh bc :
  built_distributions bc []
  = map (fun P => (P, distribution_of bc P
                        (set_iter (first_observation_order bc P))))
      (predecessors bc).
Proof.
  unfold built_distributions.
  rewrite (fold_dict_set_fresh
             (fun Q => distribution_of bc Q
                         (set_iter (first_observation_order bc Q))));
    auto.
  apply first_occurrences_NoDup.
Qed.

End BuiltFacts.

(** C2 (as the code has it).  On counts with tuple keys and positive values
    the builder returns, and starting from no distributions it leaves one
    entry per predecessor, the predecessors in first-observation order.  The
    successors of a predecessor are listed in the order in which its
    successor [set] iterates: each successor once, a permutation of the
    first-observation order, and that order itself exactly when the set
    iterates in insertion order. *)
Theorem successors_in_set_iteration_order {rt : PyRuntime} :
  forall (w : World),
    let bc := bigram_counts (self w) in
    tuple_keys bc = true -> positive_counts bc = true ->
    cumulative_probs (self w) = [] ->
    exists w',
      calculate_cumulative_probabilities w = (Ok tt, w')
      /\ bigram_counts (self w') = bc
      /\ dict_keys (cumulative_probs (self w')) = predecessors bc
      /\ forall P dist,
           dict_get P (cumulative_probs (self w')) = Some dist ->
           In P (predecessors bc)
           /\ map fst dist = set_iter (first_observation_order bc P)
           /\ Permutation (map fst dist) (first_observation_order bc P)
           /\ NoDup (map fst dist).
Proof.
  intros w bc T Pos Hcp.
  exists (with_cumulative_probs
            (built_distributions bc (cumulative_probs (self w))) w).
  split; [now apply calculate_spec |]. split; [reflexivity |].
  simpl. rewrite Hcp. split.
  - rewrite built_distributions_fresh. unfold dict_keys.
    rewrite map_map. simpl. apply map_id.
  - intros P dist. rewrite built_distributions_get. simpl.
    destruct (existsb (String.eqb P) (predecessors bc)) eqn:E;
      [| discriminate].
    intros [= <-]. rewrite distribution_of_words.
    split; [now apply existsb_eqb_In |]. split; [reflexivity |].
    split; [apply set_iter_perm |].
    apply (Permutation_NoDup (l := first_observation_order bc P)).
    + symmetry. apply set_iter_perm.
    + apply first_occurrences_NoDup.
Qed.

Lemma successors_in_set_iteration_order_witness :
  tuple_keys xy_counts = true /\ positive_counts xy_counts = true
  /\ exists w',
      calculate_cumulative_probabilities
        (world_of_counts (rt := slot_runtime) 7 xy_counts) = (Ok tt, w')
      /\ dict_keys (cumulative_probs (self w')) = predecessors xy_counts.
Proof.
  split; [reflexivity |]. split; [reflexivity |].
  destruct (successors_in_set_iteration_order
              (world_of_counts (rt := slot_runtime) 7 xy_counts)
              eq_refl eq_refl eq_refl) as (w' & E & _ & K & _).
  exists w'. split; [exact E | exact K].
Defined.

(** C2 as stated fails: with sets that iterate by hash slot, the successors
    of [p], first observed as [x] then [y], are listed as [y] then [x]. *)
Lemma first_observation_order_counterexample :
  ~ (forall dist,
       dict_get "p"
         (cumulative_probs
            (self (snd (calculate_cumulative_probabilities
                          (world_of_counts (rt := slot_runtime) 7
                             xy_counts)))))
       = Some dist ->
       map fst dist = first_observation_order xy_counts "p").
Proof.
  intros H. specialize (H [("y", 0.25%float); ("x", 1%float)] eq_refl).
  discriminate H.
Qed.

(* ------------------------------------------------------------------ *)
(** ** Training keeps the instance well formed *)

Section TrainingFacts.
Context {rt : PyRuntime}.

Lemma for_each_invariant {A} (Q : World -> Prop) (l : list A)
    (body : A -> M unit) :
  (forall x w, In x l -> Q w -> exists w', body x w = (Ok tt, w') /\ Q w') ->
  forall w, Q w -> exists w', for_each l body w = (Ok tt, w') /\ Q w'.
Proof.
  induction l as [| x r IH]; intros Hb w HQ; simpl.
  - exists w. now split.
  - destruct (Hb x w (or_introl eq_refl) HQ) as (w1 & E1 & Q1).
    rewrite (bind_ok _ _ _ _ _ E1).
    apply IH; [| assumption]. intros y w2 I. apply Hb. now right.
Qed.

Lemma well_formed_self (w w' : World) :
  self w = self w' -> well_formed w -> well_formed w'.
Proof.
  unfold well_formed, sound_distributions. intros E. now rewrite E.
Qed.

Lemma forallb_dict_set {K V} `{EqKey K} (p : K * V -> bool) (k : K) (v : V)
    (d : dict K V) :
  forallb p d = true -> p (k, v) = true -> forallb p (dict_set k v d) = true.
Proof.
  intros Hd Hp. induction d as [| [k2 v2] r IH]; simpl in *.
  - now rewrite Hp.
  - apply andb_true_iff in Hd as [H2 Hr].
    destruct (key_eqb_spec k k2) as [<- | N]; simpl.
    + now rewrite Hp, Hr.
    + now rewrite H2, IH.
Qed.

Lemma dict_set_keeps_key {K V} `{EqKey K} (k k0 : K) (v c : V)
    (d : dict K V) :
  In (k0, c) d -> exists c', In (k0, c') (dict_set k v d).
Proof.
  induction d as [| [k2 v2] r IH]; simpl; [tauto |].
  intros [E | I].
  - inversion E; subst. destruct (key_eqb_spec k k0) as [<- | N].
    + exists v. now left.
    + exists c. now left.
  - destruct (key_eqb k k2); simpl.
    + exists c. now right.
    + destruct (IH I) as [c' I']. exists c'. now right.
Qed.

Lemma count_word_spec token (w : World) :
  exists d, count_word token w = (Ok tt, with_word_counts d w).
Proof. unfold count_word, bind, read, set_word_counts, update. eauto. Qed.

Lemma count_bigram_spec toks i (w : World) :
  (i + 1 < List.length toks)%nat ->
  exists a b,
    count_bigram toks i w
    = (Ok tt,
       with_bigram_counts
         (dict_set (KTuple a b)
            (match dict_get (KTuple a b) (bigram_counts (self w)) with
             | Some c => c
             | None => 0
             end + 1) (bigram_counts (self w))) w).
Proof.
  intros Hi. unfold count_bigram, index.
  destruct (nth_error toks i) as [a |] eqn:Ea.
  2:{ apply nth_error_None in Ea. lia. }
  destruct (nth_error toks (i + 1)) as [b |] eqn:Eb.
  2:{ apply nth_error_None in Eb. lia. }
  exists a, b. reflexivity.
Qed.

Lemma well_formed_word_counts d (w : World) :
  well_formed w -> well_formed (with_word_counts d w).
Proof. intros W. exact W. Qed.

Lemma well_formed_count_bigram a b (w : World) :
  well_formed w ->
  well_formed
    (with_bigram_counts
       (dict_set (KTuple a b)
          (match dict_get (KTuple a b) (bigram_counts (self w)) with
           | Some c => c
           | None => 0
           end + 1) (bigram_counts (self w))) w).
Proof.
  intros (T & Pos & Snd). unfold well_formed, sound_distributions. simpl.
  split; [| split].
  - apply forallb_dict_set; [exact T | reflexivity].
  - apply forallb_dict_set; [exact Pos |]. simpl. apply Z.leb_le.
    destruct (dict_get (KTuple a b) (bigram_counts (self w))) as [c |] eqn:E;
      [| lia].
    apply dict_get_In in E. unfold positive_counts in Pos.
    rewrite forallb_forall in Pos. apply Pos, Z.leb_le in E. simpl in E. lia.
  - intros P dist s D I. destruct (Snd P dist s D I) as [c J].
    apply (dict_set_keeps_key _ _ _ _ _ J).
Qed.

Lemma train_line_well_formed line (w : World) :
  well_formed w ->
  exists w', train_line line w = (Ok tt, w') /\ well_formed w'.
Proof.
  intros W. unfold train_line.
  destruct (tokenize (lower (strip line))) as [| t0 ts] eqn:Etok.
  - exists w. now split.
  - set (toks := t0 :: ts).
    destruct (for_each_invariant well_formed toks count_word) with (w := w)
      as (w1 & E1 & W1); [| assumption |].
    { intros x w2 _ W2. destruct (count_word_spec x w2) as [d ->].
      eexists. split; [reflexivity | now apply well_formed_word_counts]. }
    rewrite (bind_ok _ _ _ _ _ E1).
    apply for_each_invariant; [| assumption].
    intros i w2 I W2. apply in_seq in I.
    destruct (count_bigram_spec toks i w2) as (a & b & ->); [lia |].
    eexists. split; [reflexivity | now apply well_formed_count_bigram].
Qed.

Lemma calculate_well_formed (w : World) :
  well_formed w ->
  exists w',
    calculate_cumulative_probabilities w = (Ok tt, w') /\ well_formed w'.
Proof.
  intros (T & Pos & Snd). rewrite (calculate_spec w T Pos).
  eexists. split; [reflexivity |].
  unfold well_formed, sound_distributions. simpl.
  split; [exact T |]. split; [exact Pos |].
  intros P dist s. rewrite built_distributions_get.
  destruct (existsb (String.eqb P) (predecessors (bigram_counts (self w))));
    [| apply Snd].
  intros [= <-]. rewrite distribution_of_words. intros I.
  apply first_observation_order_In.
  apply (Permutation_in _ (set_iter_perm _) I).
Qed.

(** [train] returns on a well-formed instance and leaves it well formed. *)
Lemma train_well_formed corpus (w : World) :
  well_formed w ->
  exists w', train corpus w = (Ok tt, w') /\ well_formed w'.
Proof.
  intros W. unfold train.
  destruct (for_each_invariant well_formed corpus train_line) with (w := w)
    as (w1 & E1 & W1); [| assumption |].
  { intros line w2 _ W2. now apply train_line_well_formed. }
  rewrite (bind_ok _ _ _ _ _ E1). now apply calculate_well_formed.
Qed.

Lemma save_model_frame model_file (w : World) :
  self (snd (save_model model_file w)) = self w.
Proof.
  unfold save_model, bind, read. simpl.
  destruct (dump_counts (bigram_counts (self w))); reflexivity.
Qed.

Lemma trained_well_formed (w : World) : trained w -> well_formed w.
Proof.
  induction 1 as [g fs | w corpus _ IH | w prefix n seed _ IH
                  | w model_file _ IH].
  - split; [reflexivity |]. split; [reflexivity |].
    intros P dist s D. discriminate D.
  - destruct (train_well_formed corpus w IH) as (w' & E & W').
    now rewrite E.
  - apply (well_formed_self w); [| assumption].
    symmetry. apply sample_frame.
  - apply (well_formed_self w); [| assumption].
    symmetry. apply save_model_frame.
Qed.

(** Training a reachable instance never raises. *)
Lemma trained_train_returns corpus (w : World) :
  trained w -> fst (train corpus w) = Ok tt.
Proof.
  intros Tr. destruct (train_well_formed corpus w (trained_well_formed w Tr))
    as (w' & E & _). now rewrite E.
Qed.

End TrainingFacts.

(** X17. On an instance reached from a fresh one by calls of [train],
    [sample] and [save_model], with no [load_model] among them, every token
    that [sample] returns was counted as the successor of some predecessor:
    it is the second element of a key of [bigram_counts].  ([sample] returns
    unless the prefix has no token, where it raises [IndexError].) *)
Theorem sampled_tokens_are_successors {rt : PyRuntime} :
  forall (w : World) (prefix : string) (max_tokens : Z) (seed : option Z),
    trained w ->
    match fst (sample prefix max_tokens seed w) with
    | Ok c =>
        forall t, In t (tokens c) ->
                  exists P count,
                    In (KTuple P t, count) (bigram_counts (self w))
    | Raise e => e = IndexError /\ tokenize (lower (strip prefix)) = []
    end.
Proof.
  intros w prefix max_tokens seed Tr.
  destruct (trained_well_formed w Tr) as (_ & _ & Snd).
  rewrite sample_unfold. simpl.
  set (w0 := match seed with
             | Some s => with_random_state (seed_state s) w
             | None => w
             end).
  assert (Hself : self w0 = self w) by (subst w0; now destruct seed).
  pose proof (sample_loop_extends (Z.to_nat max_tokens)
                (tokenize (lower (strip prefix))) w0) as Hext.
  pose proof (sample_loop_raises (Z.to_nat max_tokens)
                (tokenize (lower (strip prefix))) w0) as Hraise.
  destruct (sample_loop (Z.to_nat max_tokens)
              (tokenize (lower (strip prefix))) w0) as [[out | e] w1];
    simpl in *.
  - destruct (Hext out eq_refl) as (gen & -> & Hgen).
    rewrite skipn_length_app. intros t I.
    destruct (Hgen t I) as (P & dist & D & J). rewrite Hself in D.
    destruct (Snd P dist t D J) as [c Hc]. eauto.
  - now apply Hraise.
Qed.

Lemma sampled_tokens_are_successors_witness :
  trained (abc_world (rt := slot_runtime) 3)
  /\ match fst (sample "a" 5 (Some 42) (abc_world (rt := slot_runtime) 3)) with
     | Ok c =>
         forall t, In t (tokens c) ->
                   exists P count,
                     In (KTuple P t, count)
                        (bigram_counts
                           (self (abc_world (rt := slot_runtime) 3)))
     | Raise e => e = IndexError /\ tokenize (lower (strip "a")) = []
     end.
Proof.
  assert (Tr : trained (abc_world (rt := slot_runtime) 3))
    by (apply trained_train, trained_init).
  split; [exact Tr |].
  apply (sampled_tokens_are_successors
           (abc_world (rt := slot_runtime) 3) "a" 5 (Some 42) Tr).
Defined.

(* ------------------------------------------------------------------ *)
(** ** Distributions that outlive their counts *)

(** The builder assigns a distribution to every predecessor of the current
    counts and never removes one: an entry of [cumulative_probs] whose
    predecessor is no longer in [bigram_counts] stays as it was. *)

Section StaleDistributions.
Context {rt : PyRuntime}.

Lemma set_iter_singleton (x : Token) : set_iter [x] = [x].
Proof. apply Permutation_length_1_inv, Permutation_sym, set_iter_perm. Qed.

Lemma reload_steps (g : RandomState) (model_file : string) :
  let w1 := {| self := {| bigram_counts := []; word_counts := [("a", 1)];
                          cumulative_probs := [] |};
               random_state := g; model_files := [] |} in
  let w2 := with_model_files [(model_file, saved_a)] w1 in
  let w3 := {| self := {| bigram_counts := [(KTuple "a" "b", 1)];
                          word_counts := [("a", 2); ("b", 1)];
                          cumulative_probs := [("a", [("b", 1%float)])] |};
               random_state := g;
               model_files := [(model_file, saved_a)] |} in
  let w4 := {| self := {| bigram_counts := []; word_counts := [("a", 1)];
                          cumulative_probs := [("a", [("b", 1%float)])] |};
               random_state := g;
               model_files := [(model_file, saved_a)] |} in
  train ["a"] (world0 g) = (Ok tt, w1)
  /\ save_model model_file w1 = (Ok tt, w2)
  /\ train ["a b"] w2 = (Ok tt, w3)
  /\ load_model model_file w3 = (Ok tt, w4).
Proof.
  intros w1 w2 w3 w4.
  split; [reflexivity |]. split; [reflexivity |]. split.
  - unfold train.
    assert (E : for_each ["a b"] train_line w2
                = (Ok tt,
                   {| self := {| bigram_counts := [(KTuple "a" "b", 1)];
                                 word_counts := [("a", 2); ("b", 1)];
                                 cumulative_probs := [] |};
                      random_state := g;
                      model_files := [(model_file, saved_a)] |}))
      by reflexivity.
    rewrite (bind_ok _ _ _ _ _ E).
    rewrite calculate_spec by reflexivity.
    unfold with_cumulative_probs, with_self. cbn [self bigram_counts
      word_counts cumulative_probs random_state model_files].
    unfold w3. do 3 f_equal.
    unfold built_distributions.
    change (predecessors [(KTuple "a" "b", 1)]) with ["a"].
    cbn [fold_left].
    change (first_observation_order [(KTuple "a" "b", 1)] "a") with ["b"].
    rewrite set_iter_singleton. reflexivity.
  - unfold load_model. unfold bind at 1. unfold read.
    cbn [model_files w3].
    assert (D : dict_get model_file [(model_file, saved_a)] = Some saved_a).
    { cbn. now rewrite String.eqb_refl. }
    unfold w3. cbn [model_files]. rewrite D. reflexivity.
Qed.

End StaleDistributions.

(** C10 (what the code does).  A fresh instance is trained on the line [a]
    and saved, then trained on the line [a b], then restored with
    [load_model] from the file it saved.  Every call returns.  The restored
    [bigram_counts] is empty, but [cumulative_probs] still holds the
    distribution [(b, 1.0)] for [a], which the builder called by
    [load_model] did not remove; so [sample] on the prefix [a] returns the
    token [b], whenever the number drawn is below 1.0 as the numbers of
    [random.random()] are, although [b] is the successor of no key of
    [bigram_counts]. *)
Theorem sample_after_load_returns_uncounted_token {rt : PyRuntime} :
  forall (g : RandomState) (model_file : string) (seed : Z),
    let w1 := snd (train ["a"] (world0 g)) in
    let w2 := snd (save_model model_file w1) in
    let w3 := snd (train ["a b"] w2) in
    fst (train ["a"] (world0 g)) = Ok tt
    /\ fst (save_model model_file w1) = Ok tt
    /\ fst (train ["a b"] w2) = Ok tt
    /\ bigram_counts (self w3) = [(KTuple "a" "b", 1)]
    /\ fst (load_model model_file w3) = Ok tt
    /\ bigram_counts (self (reloaded_world g model_file)) = []
    /\ cumulative_probs (self (reloaded_world g model_file))
       = [("a", [("b", 1%float)])]
    /\ (PrimFloat.ltb (fst (next_random (seed_state seed))) 1 = true ->
        fst (sample "a" 1 (Some seed) (reloaded_world g model_file))
        = Ok {| completion := "b"; tokens := ["b"] |}).
Proof.
  intros g model_file seed w1 w2 w3.
  destruct (reload_steps g model_file) as (E1 & E2 & E3 & E4).
  unfold reloaded_world, w3, w2, w1.
  rewrite E1. cbn [fst snd]. rewrite E2. cbn [fst snd].
  rewrite E3. cbn [fst snd]. rewrite E4. cbn [fst snd self bigram_counts
    cumulative_probs].
  repeat (split; [reflexivity |]).
  intros Hlt. rewrite sample_unfold. cbv zeta.
  change (tokenize (lower (strip "a"))) with ["a"].
  change (Z.to_nat 1) with 1%nat.
  cbv - [next_random seed_state PrimFloat.ltb].
  destruct (next_random (seed_state seed)) as [x g'].
  cbn [fst] in Hlt. rewrite Hlt. reflexivity.
Qed.

Lemma sample_after_load_returns_uncounted_token_witness :
  bigram_counts (self (reloaded_world (rt := insertion_runtime) 7 "m.json"))
  = []
  /\ fst (sample "a" 1 (Some 42)
            (reloaded_world (rt := insertion_runtime) 7 "m.json"))
     = Ok {| completion := "b"; tokens := ["b"] |}.
Proof.
  destruct (sample_after_load_returns_uncounted_token
              (rt := insertion_runtime) 7 "m.json" 42)
    as (_ & _ & _ & _ & _ & E & _ & H).
  split; [exact E | apply H; reflexivity].
Defined.

(* ------------------------------------------------------------------ *)
(** ** Persistence *)

Section PersistenceFacts.
Context {rt : PyRuntime}.

(** [json.dump] refuses the first tuple key it meets. *)
Lemma dump_counts_tuple_keys bc :
  tuple_keys bc = true -> bc <> [] -> dump_counts bc = Raise TypeError.
Proof.
  destruct bc as [| [[a b | s] c] r]; simpl; [congruence | auto |].
  discriminate.
Qed.

(** A trained instance that has counted at least one bigram cannot be
    saved. *)
Lemma trained_save_raises model_file (w : World) :
  trained w -> bigram_counts (self w) <> [] ->
  fst (save_model model_file w) = Raise TypeError
  /\ dict_get model_file (model_files (snd (save_model model_file w)))
     = Some Truncated.
Proof.
  intros Tr Hne. destruct (trained_well_formed w Tr) as (T & _ & _).
  unfold save_model, bind, read. simpl.
  rewrite (dump_counts_tuple_keys _ T Hne). simpl.
  split; [reflexivity | apply dict_get_set_same].
Qed.

Lemma ab_world_counts (g : RandomState) :
  fst (train ["a b"] (world0 g)) = Ok tt
  /\ bigram_counts (self (ab_world g)) = [(KTuple "a" "b", 1)].
Proof.
  split; [apply trained_train_returns, trained_init |].
  unfold ab_world, train.
  assert (E : for_each ["a b"] train_line (world0 g)
              = (Ok tt,
                 {| self := {| bigram_counts := [(KTuple "a" "b", 1)];
                               word_counts := [("a", 1); ("b", 1)];
                               cumulative_probs := [] |};
                    random_state := g; model_files := [] |}))
    by reflexivity.
  rewrite (bind_ok _ _ _ _ _ E).
  rewrite calculate_spec by reflexivity. reflexivity.
Qed.

End PersistenceFacts.

(** C3 (what the code does).  After training on the single line [a b] the
    instance holds the one count of the tuple key [(a, b)]; [save_model] then
    raises [TypeError], because [json.dump] takes no tuple as a key, and
    leaves an incomplete file; [load_model] on that file ends with
    [exit(1)].  So the model is neither saved nor loaded back. *)
Theorem save_model_rejects_trained_model {rt : PyRuntime} :
  forall (g : RandomState) (model_file : string),
    fst (train ["a b"] (world0 g)) = Ok tt
    /\ bigram_counts (self (ab_world g)) = [(KTuple "a" "b", 1)]
    /\ fst (save_model model_file (ab_world g)) = Raise TypeError
    /\ dict_get model_file
         (model_files (snd (save_model model_file (ab_world g))))
       = Some Truncated
    /\ fst (load_model model_file (snd (save_model model_file (ab_world g))))
       = Raise (SystemExit 1).
Proof.
  intros g model_file.
  destruct (ab_world_counts g) as [E1 E2].
  assert (Tr : trained (ab_world g)) by apply trained_train, trained_init.
  destruct (trained_save_raises model_file (ab_world g) Tr) as [E3 E4];
    [rewrite E2; discriminate |].
  repeat split; auto.
  unfold load_model, bind, read. simpl. now rewrite E4.
Qed.

(** A document whose keys are strings, as JSON has them, is not loaded
    either: a key of two characters unpacks, but the tuple it gives is not a
    key ([KeyError]); any other key does not unpack ([ValueError]). *)
Example load_model_string_keys :
  let doc k := JsonText {| md_bigram_counts := [(k, 1)];
                           md_word_counts := [] |} in
  let w k := {| self := init; random_state := 7;
                model_files := [("m.json", doc k)] |} in
  fst (load_model (rt := slot_runtime) "m.json" (w "ab")) = Raise KeyError
  /\ fst (load_model (rt := slot_runtime) "m.json" (w "a b"))
     = Raise ValueError.
Proof. split; reflexivity. Qed.

(* ------------------------------------------------------------------ *)
(** ** The values of a distribution *)

Section ValueFacts.
Context {rt : PyRuntime}.

Lemma Qsum_increments (f : Token -> Z) (q : Q) (ws : list Token) :
  (Qsum (map (fun s => inject_Z (f s) / q) ws)
   == inject_Z (fold_right (fun s acc => f s + acc)%Z 0%Z ws) / q)%Q.
Proof.
  induction ws as [| s r IH]; simpl.
  - unfold Qdiv. ring.
  - rewrite IH, inject_Z_plus. unfold Qdiv. ring.
Qed.

Lemma total_of_fold_right bc word ws :
  total_of bc word ws
  = fold_right (fun s acc => count_of bc word s + acc) 0 ws.
Proof.
  induction ws as [| s r IH]; [reflexivity |].
  rewrite total_of_cons, IH. reflexivity.
Qed.

(** In exact arithmetic the increments of a distribution add up to 1. *)
Lemma exact_increments_sum bc word ws :
  1 <= total_of bc word ws ->
  (Qsum (exact_increments bc word ws) == 1)%Q.
Proof.
  intros Ht. unfold exact_increments.
  rewrite (Qsum_increments (count_of bc word)), <- total_of_fold_right.
  field. intros E. unfold Qeq in E. simpl in E. lia.
Qed.

Lemma set_iter_pair (x y : Token) :
  set_iter [x; y] = [x; y] \/ set_iter [x; y] = [y; x].
Proof.
  apply Permutation_length_2_inv. symmetry. apply set_iter_perm.
Qed.

End ValueFacts.

Section ThreeToOne.
Context {rt : PyRuntime}.
Variables P x y : Token.
Hypothesis x_not_y : x <> y.

Let bc : dict bigram_key Z := [(KTuple P x, 3); (KTuple P y, 1)].

Lemma three_to_one_order :
  predecessors bc = [P] /\ first_observation_order bc P = [x; y].
Proof.
  unfold predecessors, first_observation_order, successors_observed, bc.
  simpl. rewrite !String.eqb_refl. simpl.
  now rewrite (proj2 (String.eqb_neq y x)) by congruence.
Qed.

Lemma three_to_one_counts :
  count_of bc P x = 3 /\ count_of bc P y = 1.
Proof.
  unfold count_of, bc. simpl. rewrite !String.eqb_refl. simpl.
  now rewrite (proj2 (String.eqb_neq y x)) by congruence.
Qed.

Lemma three_to_one_x_first :
  distribution_of bc P [x; y] = [(x, 0.75%float); (y, 1%float)].
Proof.
  destruct three_to_one_counts as [Cx Cy].
  unfold distribution_of, total_of. simpl. rewrite Cx, Cy. reflexivity.
Qed.

Lemma three_to_one_y_first :
  distribution_of bc P [y; x] = [(y, 0.25%float); (x, 1%float)].
Proof.
  destruct three_to_one_counts as [Cx Cy].
  unfold distribution_of, total_of. simpl. rewrite Cx, Cy. reflexivity.
Qed.

End ThreeToOne.

(* ------------------------------------------------------------------ *)
(** ** Binary64 rounding of the running sum *)

(** The operations of the builder on floats are those of [SpecFloat]:
    [PrimFloat.div] and [PrimFloat.add] are [SFdiv] and [SFadd] on the
    decoded operands, which round to nearest even through a shift register
    with a round bit and a sticky bit. *)

Module Binary64.

(** One step of the register halves the mantissa; the invariant then holds
    at the doubled unit. *)
Lemma shr_1_inv N D mrs : shr_inv N D mrs -> shr_inv N (2 * D) (shr_1 mrs).
Proof.
  destruct mrs as [m r s]. unfold shr_inv. cbn [shr_m shr_r shr_s].
  intros (HD & Hm & HR & Hr & Hs).
  assert (Hrs : (r || s)%bool = true <-> N - m * D <> 0).
  { rewrite orb_true_iff, Hr, Hs. split; [intros [? | [? ?]] | intros ?]; lia. }
  clear Hr Hs.
  destruct m as [| [p | p |] | p]; cbn [shr_1 shr_m shr_r shr_s].
  all: try lia.
  all: try rewrite (Pos2Z.inj_xI p) in HR, Hrs; try rewrite (Pos2Z.inj_xO p) in HR, Hrs.
  all: rewrite Hrs; clear Hrs.
  all: split; [lia | split; [lia | split; [lia | split]]].
  all: split; try discriminate; try reflexivity; intros; try lia.
Qed.

Lemma iter_pos_inv (P : Z -> shr_record -> Prop) (f : shr_record -> shr_record) :
  (forall D x, P D x -> P (2 * D) (f x)) ->
  forall p D x, P D x -> P (2 ^ Zpos p * D) (iter_pos f p x).
Proof.
  intros Hf. induction p as [p IH | p IH |]; intros D x H; cbn [iter_pos].
  - rewrite (Pos2Z.inj_xI p).
    replace (2 ^ (2 * Z.pos p + 1) * D) with (2 ^ Z.pos p * (2 ^ Z.pos p * (2 * D))).
    + apply IH, IH, Hf, H.
    + rewrite Z.pow_add_r, Z.pow_1_r by lia.
      replace (2 * Z.pos p) with (Z.pos p + Z.pos p) by lia.
      rewrite Z.pow_add_r by lia. ring.
  - rewrite (Pos2Z.inj_xO p).
    replace (2 ^ (2 * Z.pos p) * D) with (2 ^ Z.pos p * (2 ^ Z.pos p * D)).
    + apply IH, IH, H.
    + replace (2 * Z.pos p) with (Z.pos p + Z.pos p) by lia.
      rewrite Z.pow_add_r by lia. ring.
  - change (2 ^ 1) with 2. apply Hf, H.
Qed.

(** [shr] by [n] places: the unit is multiplied by [2^n], the exponent grows
    by [n], and nothing happens for [n <= 0]. *)
Lemma shr_spec N D mrs e n :
  shr_inv N D mrs ->
  shr_inv N (2 ^ Z.max 0 n * D) (fst (shr mrs e n))
  /\ snd (shr mrs e n) = e + Z.max 0 n
  /\ (n <= 0 -> fst (shr mrs e n) = mrs).
Proof.
  intros H.
  assert (E : n <= 0 -> 2 ^ Z.max 0 n * D = D).
  { intros L. rewrite Z.max_l by lia. rewrite Z.pow_0_r. lia. }
  destruct n as [| p | p]; cbn [shr fst snd].
  - rewrite E by lia. split; [exact H | split; [lia | reflexivity]].
  - split; [| split; [lia | lia]]. rewrite Z.max_r by lia.
    apply (iter_pos_inv (shr_inv N)); [apply shr_1_inv | exact H].
  - rewrite E by lia. split; [exact H | split; [lia | reflexivity]].
Qed.

Lemma shr_record_of_loc_inv N D m l :
  loc_inv N D m l ->
  shr_inv N D (shr_record_of_loc m l) /\ shr_m (shr_record_of_loc m l) = m.
Proof.
  intros (HD & Hm & HR & Hl). unfold shr_inv.
  destruct l as [| []]; cbn [shr_record_of_loc shr_m shr_r shr_s].
  all: split; [| reflexivity].
  all: split; [lia | split; [lia | split; [lia | split]]].
  all: split; try discriminate; try reflexivity; intros; try lia.
Qed.

(** Rounding to nearest, ties to even, moves the mantissa by at most half a
    unit, and not at all when the shifted number is exact. *)
Lemma round_nearest_even_spec N D mrs :
  shr_inv N D mrs ->
  let m' := round_nearest_even (shr_m mrs) (loc_of_shr_record mrs) in
  shr_m mrs <= m' <= shr_m mrs + 1
  /\ - D <= 2 * (m' * D - N) <= D
  /\ (N = shr_m mrs * D -> m' = shr_m mrs).
Proof.
  destruct mrs as [m r s]. unfold shr_inv. cbn [shr_m shr_r shr_s].
  intros (HD & Hm & HR & Hr & Hs).
  destruct r, s; cbn [loc_of_shr_record round_nearest_even].
  - assert (D <= 2 * (N - m * D)) by now apply Hr.
    assert (2 * (N - m * D) <> D) by now apply Hs.
    lia.
  - assert (D <= 2 * (N - m * D)) by now apply Hr.
    assert (~ (N - m * D <> 0 /\ 2 * (N - m * D) <> D))
      by (intros C; apply Hs in C; discriminate).
    destruct (Z.even m); lia.
  - assert (~ D <= 2 * (N - m * D)) by (intros C; apply Hr in C; discriminate).
    lia.
  - assert (~ D <= 2 * (N - m * D)) by (intros C; apply Hr in C; discriminate).
    lia.
Qed.

(** The number of binary digits: [2^(d-1) <= m < 2^d]. *)
Lemma digits2_pos_size p : digits2_pos p = Pos.size p.
Proof. induction p; simpl; congruence. Qed.

Lemma Zdigits2_nonneg m : 0 <= Zdigits2 m.
Proof. destruct m; simpl; lia. Qed.

Lemma Zdigits2_bounds m :
  0 < m -> 2 ^ (Zdigits2 m - 1) <= m < 2 ^ Zdigits2 m.
Proof.
  destruct m as [| p | p]; try lia. intros _. cbn [Zdigits2].
  rewrite digits2_pos_size.
  pose proof (Pos.size_gt p) as G. pose proof (Pos.size_le p) as L.
  apply Pos2Z.pos_lt_pos in G. apply Pos2Z.pos_le_pos in L.
  rewrite Pos2Z.inj_pow in G, L. rewrite (Pos2Z.inj_xO p) in L.
  replace (Z.pos (Pos.size p)) with (Z.succ (Z.pos (Pos.size p) - 1)) in L at 1 by lia.
  rewrite Z.pow_succ_r in L by lia. lia.
Qed.

Lemma Zdigits2_upper m : 0 <= m -> m < 2 ^ Zdigits2 m.
Proof.
  intros H. destruct (Z.eq_dec m 0) as [-> | ]; [reflexivity |].
  apply Zdigits2_bounds. lia.
Qed.

Lemma Zdigits2_le m k : 0 <= k -> 0 <= m < 2 ^ k -> Zdigits2 m <= k.
Proof.
  intros Hk [H0 H]. destruct (Z.eq_dec m 0) as [-> | ]; [exact Hk |].
  destruct (Zdigits2_bounds m) as [L _]; [lia |].
  assert (2 ^ (Zdigits2 m - 1) < 2 ^ k) as C by lia.
  apply Z.pow_lt_mono_r_iff in C; lia.
Qed.

Lemma Zdigits2_gt m k : 0 <= k -> 2 ^ k <= m -> k < Zdigits2 m.
Proof.
  intros Hk H. assert (0 < 2 ^ k) by (apply Z.pow_pos_nonneg; lia).
  destruct (Zdigits2_bounds m) as [_ U]; [lia |].
  assert (2 ^ k < 2 ^ Zdigits2 m) as C by lia.
  apply Z.pow_lt_mono_r_iff in C; try lia. apply Zdigits2_nonneg.
Qed.

Lemma fexp_eq x : fexp prec emax x = Z.max (x - 53) (-1074).
Proof. reflexivity. Qed.

(** [binary_round_aux] on the mantissa [mx] at exponent [ex], standing for
    the number [N / D * 2^ex]: the result has its mantissa [m] at an
    exponent [e] of at least [e1], the larger of [ex] and the exponent
    that the format gives a number of this size, and [m * 2^e] is within
    half of [2^e1] of the number; it is the number itself when that was
    exact and had no digit too many. *)
Lemma binary_round_aux_spec (sx : bool) (mx ex : Z) (lx : location) (N D : Z) :
  loc_inv N D mx lx ->
  let f := fexp prec emax (Zdigits2 mx + ex) in
  let e1 := Z.max ex f in
  exists m e,
    binary_round_aux prec emax sx mx ex lx
    = match m with
      | Z0 => S754_zero sx
      | Zpos p => if e <=? 971 then S754_finite sx p e else S754_infinity sx
      | Zneg _ => S754_nan
      end
    /\ 0 <= m /\ e1 <= e <= e1 + 1
    /\ - (2 ^ (e1 - ex) * D) <= 2 * (m * 2 ^ (e - ex) * D - N)
       <= 2 ^ (e1 - ex) * D
    /\ (lx = loc_Exact -> f <= ex -> m * 2 ^ (e - ex) = mx).
Proof.
  intros L f e1.
  destruct (shr_record_of_loc_inv _ _ _ _ L) as [I0 M0].
  destruct L as (HD & Hmx & HR & Hl).
  unfold binary_round_aux, shr_fexp. fold f.
  set (k := f - ex).
  destruct (shr_spec N D (shr_record_of_loc mx lx) ex k I0) as (I1 & E1 & Same).
  destruct (shr (shr_record_of_loc mx lx) ex k) as [mrs1 e1'] eqn:S1.
  cbn [fst snd] in I1, E1, Same.
  set (K := Z.max 0 k) in *.
  assert (Ee : e1' = e1) by (unfold e1; lia). clear E1. subst e1'.
  assert (EK : e1 - ex = K) by (unfold e1; lia).
  assert (F0 : -1074 <= f) by (unfold f; rewrite fexp_eq; lia).
  pose proof (round_nearest_even_spec N (2 ^ K * D) mrs1 I1) as R.
  cbv zeta in R.
  set (m' := round_nearest_even (shr_m mrs1) (loc_of_shr_record mrs1)) in *.
  destruct R as (Rm & Rb & Rex).
  assert (P : 0 < 2 ^ K) by (apply Z.pow_pos_nonneg; lia).
  destruct I1 as (_ & Hm1 & HR1 & _).
  assert (B1 : shr_m mrs1 < 2 ^ 53).
  { assert (A : shr_m mrs1 * 2 ^ K < mx + 1).
    { apply (Z.mul_lt_mono_pos_r D); lia. }
    pose proof (Zdigits2_upper mx Hmx) as U.
    assert (Dg : Zdigits2 mx <= 53 + K).
    { unfold K, k, f. rewrite fexp_eq. lia. }
    assert (Pw : 2 ^ Zdigits2 mx <= 2 ^ (53 + K)) by (apply Z.pow_le_mono_r; lia).
    rewrite Z.pow_add_r in Pw by lia.
    apply (Z.mul_lt_mono_pos_r (2 ^ K)); lia. }
  assert (L2 : loc_inv m' 1 m' loc_Exact) by (unfold loc_inv; lia).
  destruct (shr_record_of_loc_inv _ _ _ _ L2) as [I2 _].
  set (k2 := fexp prec emax (Zdigits2 m' + e1) - e1).
  destruct (shr_spec m' 1 (shr_record_of_loc m' loc_Exact) e1 k2 I2)
    as (I3 & E3 & _).
  destruct (shr (shr_record_of_loc m' loc_Exact) e1 k2) as [mrs2 e2] eqn:S2.
  cbn [fst snd] in I3, E3.
  assert (HK2 : Z.max 0 k2 = 0 \/ (Z.max 0 k2 = 1 /\ m' = 2 ^ 53)).
  { destruct (Z_lt_le_dec m' (2 ^ 53)) as [Lt | Ge].
    - left. assert (Zdigits2 m' <= 53) by (apply Zdigits2_le; lia).
      unfold k2. rewrite fexp_eq. lia.
    - right. assert (Em : m' = 2 ^ 53) by lia. split; [| exact Em].
      unfold k2. rewrite Em, fexp_eq. change (Zdigits2 (2 ^ 53)) with 54. lia. }
  destruct I3 as (_ & Hm2 & HR2 & _).
  assert (M2 : shr_m mrs2 * 2 ^ Z.max 0 k2 = m').
  { destruct HK2 as [E | [E Em]]; rewrite E in HR2 |- *.
    - rewrite Z.pow_0_r in *. lia.
    - rewrite Em in HR2 |- *. change (2 ^ 1) with 2 in *.
      change (2 ^ 53) with 9007199254740992 in *. lia. }
  exists (shr_m mrs2), e2.
  split; [reflexivity |].
  split; [exact Hm2 |].
  split; [lia |].
  assert (Ep : shr_m mrs2 * 2 ^ (e2 - ex) = m' * 2 ^ K).
  { replace (e2 - ex) with (Z.max 0 k2 + K) by lia.
    rewrite Z.pow_add_r by lia. rewrite <- M2. ring. }
  split.
  - rewrite EK, Ep.
    replace (m' * 2 ^ K * D) with (m' * (2 ^ K * D)) by ring. exact Rb.
  - intros El Hf. rewrite Ep.
    assert (K0 : K = 0) by (unfold K, k; lia).
    rewrite K0 in *. rewrite Z.pow_0_r in *.
    rewrite Same in * by (unfold k; lia). rewrite M0 in *.
    rewrite El in Hl.
    rewrite Rex by lia. lia.
Qed.

Lemma pow2_pos k : 0 <= k -> 0 < 2 ^ k.
Proof. intros. apply Z.pow_pos_nonneg; lia. Qed.

Lemma pow2_lt_inv a b : 0 <= b -> 2 ^ a < 2 ^ b -> a < b.
Proof. intros Hb H. apply Z.pow_lt_mono_r_iff in H; lia. Qed.

Lemma pow2_le a b : 0 <= a <= b -> 2 ^ a <= 2 ^ b.
Proof. intros. apply Z.pow_le_mono_r; lia. Qed.

(** The same in units of [2^-1074], for a result below 2: the error is at
    most [2^-53]. *)
Lemma round_scaled mx ex lx N D :
  loc_inv N D mx lx -> -1074 <= ex ->
  Z.max ex (fexp prec emax (Zdigits2 mx + ex)) <= -52 ->
  exists V,
    represents (binary_round_aux prec emax false mx ex lx) V
    /\ - (2 ^ 1022 * D) <= 2 * (V * D - N * 2 ^ (ex + 1074)) <= 2 ^ 1022 * D.
Proof.
  intros L Hex He1.
  destruct (binary_round_aux_spec false mx ex lx N D L)
    as (m & e & E & Hm & He & Hb & _).
  set (e1 := Z.max ex (fexp prec emax (Zdigits2 mx + ex))) in *.
  destruct L as (HD & _).
  exists (m * 2 ^ (e + 1074)). split.
  - rewrite E. destruct m as [| p | p]; [reflexivity | | lia].
    replace (e <=? 971) with true by (symmetry; apply Z.leb_le; lia).
    simpl. split; [lia | reflexivity].
  - set (W := 2 ^ (ex + 1074)).
    assert (HW : 0 < W) by (apply pow2_pos; lia).
    assert (EV : m * 2 ^ (e + 1074) = m * 2 ^ (e - ex) * W).
    { unfold W. rewrite <- Z.mul_assoc, <- Z.pow_add_r by lia.
      do 2 f_equal. lia. }
    rewrite EV.
    set (A := m * 2 ^ (e - ex) * D - N) in *.
    replace (m * 2 ^ (e - ex) * W * D - N * W) with (A * W) by (unfold A; ring).
    assert (HB : 2 ^ (e1 - ex) * W <= 2 ^ 1022).
    { unfold W. rewrite <- Z.pow_add_r by lia. apply pow2_le. lia. }
    assert (HBD : 2 ^ (e1 - ex) * W * D <= 2 ^ 1022 * D)
      by (apply Z.mul_le_mono_nonneg_r; lia).
    destruct Hb as [Hb1 Hb2].
    apply (Z.mul_le_mono_nonneg_r _ _ W) in Hb1; [| lia].
    apply (Z.mul_le_mono_nonneg_r _ _ W) in Hb2; [| lia].
    lia.
Qed.

Lemma iter_xO m d : Zpos (Pos.iter xO m d) = Zpos m * 2 ^ Zpos d.
Proof.
  induction d as [| d IH] using Pos.peano_ind.
  - cbn [Pos.iter]. rewrite Pos2Z.inj_xO. change (2 ^ 1) with 2. ring.
  - rewrite Pos.iter_succ, Pos2Z.inj_xO, IH, Pos2Z.inj_succ.
    rewrite Z.pow_succ_r by lia. ring.
Qed.

(** [shl_align] lowers the exponent to the smaller of the two and keeps the
    value. *)
Lemma shl_align_spec mx ex ex' :
  snd (shl_align mx ex ex') = Z.min ex ex'
  /\ Zpos (fst (shl_align mx ex ex'))
     = Zpos mx * 2 ^ (ex - Z.min ex ex').
Proof.
  unfold shl_align. destruct (ex' - ex) as [| p | p] eqn:E; cbn [fst snd].
  - rewrite Z.min_l by lia. rewrite Z.sub_diag. split; [reflexivity | lia].
  - rewrite Z.min_l by lia. rewrite Z.sub_diag. split; [reflexivity | lia].
  - rewrite Z.min_r by lia. split; [reflexivity |].
    rewrite iter_xO. f_equal. f_equal. lia.
Qed.

Lemma Zdigits2_shift m j :
  0 < m -> 0 <= j -> Zdigits2 (m * 2 ^ j) = Zdigits2 m + j.
Proof.
  intros Hm Hj. destruct (Zdigits2_bounds m Hm) as [L U].
  pose proof (Zdigits2_nonneg m) as N0.
  assert (D1 : 1 <= Zdigits2 m).
  { destruct m; simpl in *; lia. }
  assert (P : 0 < 2 ^ j) by now apply pow2_pos.
  apply Z.le_antisymm.
  - apply Zdigits2_le; [lia |]. rewrite Z.pow_add_r by lia. split; [lia |].
    apply Z.mul_lt_mono_pos_r; lia.
  - assert (Zdigits2 m + j - 1 < Zdigits2 (m * 2 ^ j)); [| lia].
    apply Zdigits2_gt; [lia |].
    replace (Zdigits2 m + j - 1) with (Zdigits2 m - 1 + j) by lia.
    rewrite Z.pow_add_r by lia. apply Z.mul_le_mono_nonneg_r; lia.
Qed.

(** Conversion of an integer below 2^53 is exact. *)
Lemma binary_normalize_exact n :
  0 < n < 2 ^ 53 ->
  exists m e,
    binary_normalize prec emax n 0 false = S754_finite false m e
    /\ -52 <= e <= 1
    /\ Zpos m * 2 ^ (e + 1074) = n * 2 ^ 1074.
Proof.
  intros [Hn Hn']. destruct n as [| p | p]; try lia.
  cbn [binary_normalize]. unfold binary_round.
  change (Z.pos (digits2_pos p)) with (Zdigits2 (Z.pos p)).
  set (d := Zdigits2 (Z.pos p)).
  destruct (Zdigits2_bounds (Z.pos p) Hn) as [L U]. fold d in L, U.
  assert (Hd : 1 <= d <= 53).
  { split; [unfold d; simpl; lia |]. apply Zdigits2_le; lia. }
  assert (Ef : fexp prec emax (d + 0) = d - 53) by (rewrite fexp_eq; lia).
  rewrite Ef.
  destruct (shl_align_spec p 0 (d - 53)) as [Es Em].
  destruct (shl_align p 0 (d - 53)) as [mz ez]. cbn [fst snd] in Es, Em.
  rewrite Z.min_r in Es, Em by lia. subst ez.
  replace (0 - (d - 53)) with (53 - d) in Em by lia.
  assert (Dz : Zdigits2 (Z.pos mz) = 53).
  { rewrite Em, Zdigits2_shift by lia. fold d. lia. }
  assert (Lz : loc_inv (Z.pos mz) 1 (Z.pos mz) loc_Exact)
    by (unfold loc_inv; lia).
  destruct (binary_round_aux_spec false (Z.pos mz) (d - 53) loc_Exact _ _ Lz)
    as (m & e & E & Hm & He & _ & Hx).
  rewrite Dz in He, Hx.
  replace (fexp prec emax (53 + (d - 53))) with (d - 53) in He, Hx
    by (rewrite fexp_eq; lia).
  rewrite Z.max_id in He. specialize (Hx eq_refl (Z.le_refl _)).
  destruct m as [| q | q]; try lia.
  replace (e <=? 971) with true in E by (symmetry; apply Z.leb_le; lia).
  exists q, e. split; [exact E |]. split; [lia |].
  replace (e + 1074) with (e - (d - 53) + (d - 53 + 1074)) by lia.
  rewrite Z.pow_add_r by lia. rewrite Z.mul_assoc, Hx, Em.
  rewrite <- Z.mul_assoc, <- Z.pow_add_r by lia. do 2 f_equal. lia.
Qed.

Lemma pow2_le_inv a b : 0 <= b -> 2 ^ a <= 2 ^ b -> a <= b.
Proof. intros Hb H. apply Z.pow_le_mono_r_iff in H; lia. Qed.

Lemma new_location_inv q r D :
  0 < D -> 0 <= q -> 0 <= r < D ->
  loc_inv (q * D + r) D q (new_location D r).
Proof.
  intros HD Hq Hr. unfold loc_inv.
  replace (q * D + r - q * D) with r by lia.
  split; [lia | split; [lia | split; [lia |]]].
  unfold new_location. destruct (Z.even D) eqn:Ev.
  - unfold new_location_even. destruct (Z.eqb_spec r 0) as [-> | Nz]; [reflexivity |].
    destruct (Z.compare_spec (2 * r) D); lia.
  - unfold new_location_odd. destruct (Z.eqb_spec r 0) as [-> | Nz]; [reflexivity |].
    pose proof (Zmod_even D) as Md. rewrite Ev in Md.
    pose proof (Z.div_mod D 2 ltac:(lia)) as Dm.
    destruct (Z.compare_spec (2 * r + 1) D); lia.
Qed.

(** Quotient of two positive floats, the first not above the second. *)
Lemma div_scaled m1 e1 m2 e2 :
  let V1 := Zpos m1 * 2 ^ (e1 + 1074) in
  let V2 := Zpos m2 * 2 ^ (e2 + 1074) in
  -1074 <= e1 -> -1074 <= e2 -> -1074 <= e1 - e2 -> V1 <= V2 ->
  exists V,
    represents (SFdiv prec emax (S754_finite false m1 e1)
                  (S754_finite false m2 e2)) V
    /\ - (2 ^ 1022 * V2) <= 2 * (V * V2 - V1 * 2 ^ 1074) <= 2 ^ 1022 * V2.
Proof.
  intros V1 V2 H1 H2 H12 Hle.
  cbn [SFdiv xorb]. unfold SFdiv_core_binary.
  set (d1 := Zdigits2 (Z.pos m1)). set (d2 := Zdigits2 (Z.pos m2)).
  destruct (Zdigits2_bounds (Z.pos m1) ltac:(lia)) as [L1 U1]. fold d1 in L1, U1.
  destruct (Zdigits2_bounds (Z.pos m2) ltac:(lia)) as [L2 U2]. fold d2 in L2, U2.
  assert (D1 : 1 <= d1) by (unfold d1; simpl; lia).
  assert (D2 : 1 <= d2) by (unfold d2; simpl; lia).
  set (W1 := 2 ^ (e1 + 1074)) in *. set (W2 := 2 ^ (e2 + 1074)) in *.
  assert (P1 : 0 < W1) by (apply pow2_pos; lia).
  assert (P2 : 0 < W2) by (apply pow2_pos; lia).
  assert (PV2 : 0 < V2) by (unfold V2; lia).
  assert (Hdd : d1 + e1 - (d2 + e2) <= 0).
  { assert (A : 2 ^ (d1 - 1 + (e1 + 1074)) <= V1).
    { unfold V1. rewrite Z.pow_add_r by lia. apply Z.mul_le_mono_nonneg_r; lia. }
    assert (B : V2 < 2 ^ (d2 + (e2 + 1074))).
    { unfold V2. rewrite Z.pow_add_r by lia. apply Z.mul_lt_mono_pos_r; lia. }
    assert (C : 2 ^ (d1 - 1 + (e1 + 1074)) < 2 ^ (d2 + (e2 + 1074))) by lia.
    apply pow2_lt_inv in C; lia. }
  set (e' := Z.min (fexp prec emax (d1 + e1 - (d2 + e2))) (e1 - e2)).
  assert (He' : -1074 <= e' <= -53).
  { unfold e'. rewrite fexp_eq. lia. }
  set (s := e1 - e2 - e').
  assert (Hs : 0 <= s) by (unfold s, e'; lia).
  set (m' := match s with
             | 0 => Z.pos m1
             | Z.pos _ => Z.shiftl (Z.pos m1) s
             | Z.neg _ => 0
             end).
  assert (Em' : m' = Z.pos m1 * 2 ^ s).
  { unfold m'. destruct s as [| p | p] eqn:Es; [rewrite Z.pow_0_r; lia | | lia].
    apply Z.shiftl_mul_pow2. lia. }
  pose proof (Z_div_mod m' (Z.pos m2) ltac:(lia)) as DM.
  destruct (Z.div_eucl m' (Z.pos m2)) as [q r]. destruct DM as [Eq Hr].
  assert (Ps : 0 < 2 ^ s) by now apply pow2_pos.
  assert (Hq : 0 <= q) by nia.
  pose proof (new_location_inv q r (Z.pos m2) ltac:(lia) Hq Hr) as L.
  replace (q * Z.pos m2 + r) with m' in L by lia.
  (* the quotient is below 2^(-e') *)
  assert (Bq : q <= 2 ^ (- e')).
  { assert (A : q * V2 <= V1 * 2 ^ (- e')).
    { assert (A1 : q * Z.pos m2 <= m') by lia.
      apply (Z.mul_le_mono_nonneg_r _ _ W2) in A1; [| lia].
      replace (q * Z.pos m2 * W2) with (q * V2) in A1 by (unfold V2; ring).
      replace (m' * W2) with (V1 * 2 ^ (- e')) in A1; [exact A1 |].
      rewrite Em'. unfold V1, W1, W2.
      rewrite <- !Z.mul_assoc, <- !Z.pow_add_r by lia.
      do 2 f_equal. unfold s. lia. }
    assert (Pe : 0 < 2 ^ (- e')) by (apply pow2_pos; lia).
    assert (A2 : V1 * 2 ^ (- e') <= V2 * 2 ^ (- e'))
      by (apply Z.mul_le_mono_nonneg_r; lia).
    apply (Z.mul_le_mono_pos_r _ _ V2); lia. }
  assert (Hdq : Zdigits2 q + e' <= 1).
  { destruct (Z.eq_dec q 0) as [-> | Nq]; [simpl; lia |].
    destruct (Zdigits2_bounds q ltac:(lia)) as [Lq _].
    assert (C : 2 ^ (Zdigits2 q - 1) <= 2 ^ (- e')) by lia.
    apply pow2_le_inv in C; lia. }
  destruct (round_scaled q e' (new_location (Z.pos m2) r) m' (Z.pos m2) L)
    as (V & RV & Lo & Hi); [lia | rewrite fexp_eq; lia |].
  exists V. split; [exact RV |].
  assert (EN : m' * 2 ^ (e' + 1074) * W2 = V1 * 2 ^ 1074).
  { rewrite Em'. unfold V1, W1, W2.
    rewrite <- !Z.mul_assoc, <- !Z.pow_add_r by lia.
    do 2 f_equal. unfold s. lia. }
  apply (Z.mul_le_mono_nonneg_r _ _ W2) in Lo; [| lia].
  apply (Z.mul_le_mono_nonneg_r _ _ W2) in Hi; [| lia].
  replace (- (2 ^ 1022 * Z.pos m2) * W2) with (- (2 ^ 1022 * V2)) in Lo
    by (unfold V2; ring).
  replace (2 ^ 1022 * Z.pos m2 * W2) with (2 ^ 1022 * V2) in Hi
    by (unfold V2; ring).
  replace (2 * (V * Z.pos m2 - m' * 2 ^ (e' + 1074)) * W2)
    with (2 * (V * V2 - m' * 2 ^ (e' + 1074) * W2)) in Lo, Hi
    by (unfold V2; ring).
  rewrite EN in Lo, Hi. split; assumption.
Qed.

(** Sum of two non-negative floats below 2. *)
Lemma add_scaled a b Va Vb :
  represents a Va -> represents b Vb -> Va + Vb < 2 ^ 1075 ->
  exists V,
    represents (SFadd prec emax a b) V
    /\ - 2 ^ 1022 <= 2 * (V - (Va + Vb)) <= 2 ^ 1022.
Proof.
  intros Ra Rb Hlt.
  assert (P22 : 0 < 2 ^ 1022) by now apply pow2_pos.
  destruct a as [[] | | | [] ma ea]; try contradiction;
    destruct b as [[] | | | [] mb eb]; try contradiction;
    cbn [represents] in Ra, Rb.
  - subst. exists 0. split; [reflexivity | lia].
  - exists Vb. split; [exact Rb | lia].
  - exists Va. split; [exact Ra | lia].
  - destruct Ra as [Ha Ea], Rb as [Hb Eb].
    cbn [SFadd cond_Zopp].
    set (ez := Z.min ea eb).
    destruct (shl_align_spec ma ea ez) as [_ Ma].
    destruct (shl_align_spec mb eb ez) as [_ Mb].
    rewrite Z.min_r in Ma by (unfold ez; lia).
    rewrite Z.min_r in Mb by (unfold ez; lia).
    set (A := fst (shl_align ma ea ez)) in *.
    set (B := fst (shl_align mb eb ez)) in *.
    change (Z.pos A + Z.pos B) with (Z.pos (A + B)).
    cbn [binary_normalize]. unfold binary_round.
    change (Z.pos (digits2_pos (A + B))) with (Zdigits2 (Z.pos (A + B))).
    set (M := (A + B)%positive).
    set (d := Zdigits2 (Z.pos M)).
    assert (Hez : -1074 <= ez) by (unfold ez; lia).
    assert (ES : Z.pos M * 2 ^ (ez + 1074) = Va + Vb).
    { unfold M. rewrite Pos2Z.inj_add, Ma, Mb, Ea, Eb.
      rewrite Z.mul_add_distr_r, <- !Z.mul_assoc, <- !Z.pow_add_r
        by (unfold ez; lia).
      f_equal; do 2 f_equal; lia. }
    destruct (Zdigits2_bounds (Z.pos M) ltac:(lia)) as [LM UM]. fold d in LM, UM.
    assert (D1 : 1 <= d) by (unfold d; simpl; lia).
    assert (Hd : d + ez <= 1).
    { assert (C : 2 ^ (d - 1 + (ez + 1074)) < 2 ^ 1075).
      { rewrite Z.pow_add_r by lia.
        assert (0 < 2 ^ (ez + 1074)) by (apply pow2_pos; lia).
        assert (2 ^ (d - 1) * 2 ^ (ez + 1074) <= Z.pos M * 2 ^ (ez + 1074))
          by (apply Z.mul_le_mono_nonneg_r; lia).
        lia. }
      apply pow2_lt_inv in C; lia. }
    set (f := fexp prec emax (d + ez)).
    assert (Hf : -1074 <= f <= -52) by (unfold f; rewrite fexp_eq; lia).
    destruct (shl_align_spec M ez f) as [Es Em].
    destruct (shl_align M ez f) as [mz ez']. cbn [fst snd] in Es, Em.
    assert (Dz : Zdigits2 (Z.pos mz) + ez' = d + ez).
    { rewrite Em, Zdigits2_shift by lia. fold d. lia. }
    assert (Lz : loc_inv (Z.pos mz) 1 (Z.pos mz) loc_Exact)
      by (unfold loc_inv; lia).
    destruct (round_scaled (Z.pos mz) ez' loc_Exact _ _ Lz)
      as (V & RV & Lo & Hi); [lia | rewrite Dz; fold f; lia |].
    exists V. split; [exact RV |].
    assert (EN : Z.pos mz * 2 ^ (ez' + 1074) = Va + Vb).
    { rewrite <- ES, Em, <- Z.mul_assoc, <- Z.pow_add_r by lia.
      do 2 f_equal. lia. }
    rewrite EN in Lo, Hi. lia.
Qed.

End Binary64.
Import Binary64.

(** The running sum of one distribution. *)

(** [float(n)] for [0 < n < 2^53] is the float of value [n]. *)
Lemma float_of_Z_scaled n :
  0 < n < 2 ^ 53 ->
  exists m e,
    Prim2SF (float_of_Z n) = S754_finite false m e
    /\ -52 <= e <= 1
    /\ Zpos m * 2 ^ (e + 1074) = n * 2 ^ 1074.
Proof.
  intros Hn. destruct n as [| p | p]; try lia. unfold float_of_Z.
  rewrite of_uint63_spec, Uint63.of_Z_spec, Z.mod_small.
  - now apply binary_normalize_exact.
  - assert (2 ^ 53 < Uint63.wB) by reflexivity. lia.
Qed.

(** [c / T] for counts [1 <= c <= T < 2^53]: the float nearest to the
    quotient, within [2^-53] of it. *)
Lemma truediv_scaled c T :
  1 <= c <= T -> T < 2 ^ 53 ->
  exists V,
    represents (Prim2SF (float_of_Z c / float_of_Z T)) V
    /\ - (2 ^ 1022 * T) <= 2 * (V * T - c * 2 ^ 1074) <= 2 ^ 1022 * T.
Proof.
  intros Hc HT.
  destruct (float_of_Z_scaled c) as (m1 & e1 & E1 & B1 & V1); [lia |].
  destruct (float_of_Z_scaled T) as (m2 & e2 & E2 & B2 & V2); [lia |].
  rewrite div_spec, E1, E2. unfold SF64div.
  pose proof (div_scaled m1 e1 m2 e2) as Dv. cbv zeta in Dv.
  rewrite V1, V2 in Dv.
  set (W := 2 ^ 1074) in *.
  assert (PW : 0 < W) by (apply pow2_pos; lia).
  assert (Hle : c * W <= T * W) by (apply Z.mul_le_mono_nonneg_r; lia).
  specialize (Dv ltac:(lia) ltac:(lia) ltac:(lia) Hle).
  destruct Dv as (V & RV & Lo & Hi).
  exists V. split; [exact RV |].
  replace (- (2 ^ 1022 * (T * W))) with (- (2 ^ 1022 * T) * W) in Lo by ring.
  replace (2 * (V * (T * W) - c * W * W)) with (2 * (V * T - c * W) * W)
    in Lo, Hi by ring.
  replace (2 ^ 1022 * (T * W)) with (2 ^ 1022 * T * W) in Hi by ring.
  apply Z.mul_le_mono_pos_r in Lo, Hi; try lia.
Qed.

Lemma length_le_total bc word ws :
  (forall s, In s ws -> 1 <= count_of bc word s) ->
  Z.of_nat (List.length ws) <= total_of bc word ws.
Proof.
  induction ws as [| s r IH]; intros Hc; [reflexivity |].
  rewrite total_of_cons. cbn [List.length].
  specialize (Hc s (or_introl eq_refl)) as H1.
  specialize (IH (fun s' I => Hc s' (or_intror I))). lia.
Qed.

(** The running sum of the quotients: [k] additions so far have brought it
    within [k * 2^-52] of the exact sum [acc / T], and each further
    successor adds at most [2^-52] to the distance. *)
Lemma running_sum_error bc word T :
  0 < T < 2 ^ 53 ->
  forall ws cum V k acc,
    represents (Prim2SF cum) V ->
    (forall w, In w ws -> 1 <= count_of bc word w) ->
    0 <= k -> 0 <= acc -> acc + total_of bc word ws <= T ->
    k + Z.of_nat (List.length ws) < 2 ^ 52 ->
    - (k * 2 ^ 1022 * T) <= V * T - acc * 2 ^ 1074 <= k * 2 ^ 1022 * T ->
    exists V',
      represents (Prim2SF (running_sum bc word T ws cum)) V'
      /\ - ((k + Z.of_nat (List.length ws)) * 2 ^ 1022 * T)
         <= V' * T - (acc + total_of bc word ws) * 2 ^ 1074
         <= (k + Z.of_nat (List.length ws)) * 2 ^ 1022 * T.
Proof.
  intros HT. induction ws as [| w r IH]; intros cum V k acc RV Hc Hk HS Hsum Hn Hb.
  - exists V. split; [exact RV |]. cbn [List.length Z.of_nat].
    replace (total_of bc word []) with 0 by reflexivity.
    rewrite !Z.add_0_r. exact Hb.
  - rewrite total_of_cons in Hsum |- *. cbn [List.length] in Hn |- *.
    rewrite Nat2Z.inj_succ in Hn |- *.
    pose proof (Hc w (or_introl eq_refl)) as Hw.
    pose proof (length_le_total bc word r (fun s I => Hc s (or_intror I))) as Hr.
    set (c := count_of bc word w) in *.
    destruct (truediv_scaled c T) as (Vq & RVq & Lq & Hq); [lia | lia |].
    set (B := 2 ^ 1022) in *.
    assert (EW : 2 ^ 1074 = 2 ^ 52 * B) by reflexivity.
    assert (PB : 0 < B) by (apply pow2_pos; lia).
    assert (PBT : 0 < B * T) by (apply Z.mul_pos_pos; lia).
    assert (HkT : (2 * k + 1) * (B * T) < 2 ^ 53 * (B * T)).
    { apply Z.mul_lt_mono_pos_r; [exact PBT | lia]. }
    assert (Hacc : (acc + c) * B <= T * B)
      by (apply Z.mul_le_mono_nonneg_r; lia).
    assert (Hlt : V + Vq < 2 ^ 1075).
    { replace (2 ^ 1075) with (2 ^ 53 * B) by reflexivity.
      apply (Z.mul_lt_mono_pos_r T); [lia |].
      rewrite EW in *. lia. }
    cbn [running_sum fold_left]. fold c.
    destruct (add_scaled _ _ V Vq RV RVq Hlt) as (V1 & RV1 & L1 & H1).
    rewrite <- add_spec in RV1.
    apply (Z.mul_le_mono_nonneg_r _ _ T) in L1, H1; try lia.
    fold B in L1, H1. rewrite EW in *.
    assert (Hb1 : - ((k + 1) * B * T) <= V1 * T - (acc + c) * (2 ^ 52 * B)
                  <= (k + 1) * B * T) by lia.
    destruct (IH (cum + float_of_Z c / float_of_Z T)%float V1 (k + 1) (acc + c)
                RV1 (fun s I => Hc s (or_intror I)) ltac:(lia) ltac:(lia)
                ltac:(lia) ltac:(lia) Hb1)
      as (V' & RV' & L' & H').
    exists V'. split; [exact RV' |].
    replace (k + Z.succ (Z.of_nat (List.length r)))
      with (k + 1 + Z.of_nat (List.length r)) by lia.
    replace (acc + (c + total_of bc word r)) with (acc + c + total_of bc word r)
      by lia.
    split; assumption.
Qed.

(** The last pair of a distribution holds the running sum over all
    successors. *)
Lemma final_cumulate bc word total w r cum :
  final_cumulative (cumulate bc word total (w :: r) cum)
  = Some (running_sum bc word total (w :: r) cum).
Proof.
  revert w cum. induction r as [| w' r IH]; intros w cum; [reflexivity |].
  exact (IH w' (cum + float_of_Z (count_of bc word w) / float_of_Z total)%float).
Qed.

(** From units of [2^-1074] to the value of the float. *)
Lemma represents_value f V :
  represents (Prim2SF f) V ->
  exists v, float_value f = Some v
            /\ (v * inject_Z (2 ^ 1074) == inject_Z V)%Q.
Proof.
  unfold float_value.
  destruct (Prim2SF f) as [[] | [] | | [] m e]; cbn [represents];
    try contradiction.
  - intros ->. exists 0%Q. split; [reflexivity | ring].
  - intros [He ->]. eexists. split; [reflexivity |].
    cbn [cond_Zopp].
    rewrite inject_Z_mult, !Zpower_Qpower by lia.
    change (inject_Z 2) with 2%Q.
    rewrite Qpower_plus by discriminate. ring.
Qed.

Lemma close_to_one (v Vq Wq Bq Pq nq : Q) :
  (0 < Pq -> 0 < Bq -> Wq == Pq * Bq -> v * Wq == Vq ->
   - (nq * Bq) <= Vq - Wq <= nq * Bq ->
   Qabs (v - 1) <= nq / Pq)%Q.
Proof.
  intros HP HB EW Ev [Lo Hi].
  assert (E : ((v - 1) * Pq * Bq == Vq - Wq)%Q).
  { rewrite <- Ev, EW. ring. }
  apply Qabs_Qle_condition. split.
  - setoid_replace (- (nq / Pq))%Q with ((- nq) / Pq)%Q
      by (field; intros C; rewrite C in HP; discriminate).
    apply Qle_shift_div_r; [exact HP |].
    apply (Qmult_le_r _ _ Bq HB). rewrite E.
    setoid_replace (- nq * Bq)%Q with (- (nq * Bq))%Q by ring. exact Lo.
  - apply Qle_shift_div_l; [exact HP |].
    apply (Qmult_le_r _ _ Bq HB). rewrite E. exact Hi.
Qed.

(** The final cumulative value of a distribution over [n] successors with
    counts of at least 1 and a total below [2^52] is a finite float within
    [n * 2^-52] of 1. *)
Lemma final_value_close bc word ws :
  ws <> [] -> (forall w, In w ws -> 1 <= count_of bc word w) ->
  total_of bc word ws < 2 ^ 52 ->
  exists c v,
    final_cumulative (distribution_of bc word ws) = Some c
    /\ float_value c = Some v
    /\ (Qabs (v - 1) <= tolerance (List.length ws))%Q.
Proof.
  intros Hne Hc HT. set (T := total_of bc word ws) in *.
  pose proof (length_le_total bc word ws Hc) as Hlen. fold T in Hlen.
  assert (Hn : 1 <= Z.of_nat (List.length ws)).
  { destruct ws; [congruence | cbn [List.length]; lia]. }
  assert (R0 : represents (Prim2SF 0%float) 0) by reflexivity.
  destruct (running_sum_error bc word T ltac:(lia) ws 0%float 0 0 0 R0 Hc
              ltac:(lia) ltac:(lia) ltac:(fold T; lia) ltac:(lia) ltac:(lia))
    as (V & RV & Lo & Hi).
  fold T in Lo, Hi. rewrite !Z.add_0_l in Lo, Hi.
  set (n := Z.of_nat (List.length ws)) in *.
  assert (Lo' : - (n * 2 ^ 1022) <= V - 2 ^ 1074).
  { apply (Z.mul_le_mono_pos_r _ _ T); lia. }
  assert (Hi' : V - 2 ^ 1074 <= n * 2 ^ 1022).
  { apply (Z.mul_le_mono_pos_r _ _ T); lia. }
  destruct (represents_value _ _ RV) as (v & Ev & Evq).
  exists (running_sum bc word T ws 0%float), v.
  split; [| split; [exact Ev |]].
  - unfold distribution_of. fold T. destruct ws as [| w r]; [congruence |].
    apply final_cumulate.
  - unfold tolerance. fold n.
    apply (close_to_one v (inject_Z V) (inject_Z (2 ^ 1074))
             (inject_Z (2 ^ 1022)) (inject_Z (2 ^ 52)) (inject_Z n)).
    + reflexivity.
    + reflexivity.
    + rewrite <- inject_Z_mult. reflexivity.
    + exact Evq.
    + unfold Qminus. rewrite <- !inject_Z_mult, <- !inject_Z_opp, <- inject_Z_plus.
      rewrite <- !Zle_Qle. split; lia.
Qed.

(** C5 (as the code has it).  On counts with tuple keys and positive values
    the builder returns and gives every predecessor the distribution of its
    successor set, in the iteration order of the set: the running
    floating-point sum of the quotients [count / total_count], where
    [total_count] is at least 1.  The final cumulative value equals 1.0
    within floating-point tolerance: for [n] successors and a total count
    below [2^52] it is a finite float that differs from 1 by at most
    [n * 2^-52] (in exact arithmetic the increments add up to 1).
    For the counts 3 and 1 of [x] and [y] after [P] the distribution is
    [(x, 0.75), (y, 1.0)] when the set iterates [x] first and
    [(y, 0.25), (x, 1.0)] when it iterates [y] first, these values being
    exact in binary64. *)
Theorem distribution_values {rt : PyRuntime} :
  forall (w : World),
    let bc := bigram_counts (self w) in
    tuple_keys bc = true -> positive_counts bc = true ->
    exists w',
      calculate_cumulative_probabilities w = (Ok tt, w')
      /\ (forall P,
            In P (predecessors bc) ->
            let ws := set_iter (first_observation_order bc P) in
            dict_get P (cumulative_probs (self w'))
            = Some (distribution_of bc P ws)
            /\ 1 <= total_of bc P ws
            /\ (Qsum (exact_increments bc P ws) == 1)%Q
            /\ (total_of bc P ws < 2 ^ 52 ->
                exists c v,
                  final_cumulative (distribution_of bc P ws) = Some c
                  /\ float_value c = Some v
                  /\ (Qabs (v - 1) <= tolerance (List.length ws))%Q))
      /\ (forall P x y,
            x <> y ->
            bc = [(KTuple P x, 3); (KTuple P y, 1)] ->
            (set_iter [x; y] = [x; y]
             /\ dict_get P (cumulative_probs (self w'))
                = Some [(x, 0.75%float); (y, 1%float)])
            \/ (set_iter [x; y] = [y; x]
                /\ dict_get P (cumulative_probs (self w'))
                   = Some [(y, 0.25%float); (x, 1%float)])).
Proof.
  intros w bc T Pos.
  exists (with_cumulative_probs
            (built_distributions bc (cumulative_probs (self w))) w).
  split; [now apply calculate_spec |].
  assert (G : forall P, In P (predecessors bc) ->
                dict_get P (built_distributions bc
                              (cumulative_probs (self w)))
                = Some (distribution_of bc P
                          (set_iter (first_observation_order bc P)))).
  { intros P I. rewrite built_distributions_get.
    apply existsb_eqb_In in I. now rewrite I. }
  split.
  - intros P I ws.
    assert (Hne : ws <> []).
    { intros E. apply (predecessor_has_successor bc P I).
      apply Permutation_nil. unfold ws in E. rewrite <- E.
      apply set_iter_perm. }
    assert (Hc : forall s, In s ws -> 1 <= count_of bc P s).
    { intros s J.
      assert (J' : In s (first_observation_order bc P))
        by apply (Permutation_in _ (set_iter_perm _) J).
      apply first_observation_order_In in J' as [c J'].
      now apply (positive_count_of bc P s c). }
    assert (Ht : 1 <= total_of bc P ws) by now apply total_of_positive.
    split; [now apply G |]. split; [exact Ht |].
    split; [now apply exact_increments_sum |].
    intros Hlt. now apply final_value_close.
  - intros P x y Nxy Ebc. simpl.
    destruct (three_to_one_order P x y Nxy) as [Ep Eo].
    rewrite G by (rewrite Ebc, Ep; now left).
    rewrite Ebc, Eo.
    destruct (set_iter_pair x y) as [E | E]; rewrite E; [left | right];
      (split; [reflexivity |]); f_equal.
    + now apply three_to_one_x_first.
    + now apply three_to_one_y_first.
Qed.

Lemma distribution_values_witness :
  tuple_keys xy_counts = true /\ positive_counts xy_counts = true
  /\ exists w',
      calculate_cumulative_probabilities
        (world_of_counts (rt := insertion_runtime) 7 xy_counts) = (Ok tt, w')
      /\ dict_get "p" (cumulative_probs (self w'))
         = Some [("x", 0.75%float); ("y", 1%float)]
      /\ exists c v,
           final_cumulative [("x", 0.75%float); ("y", 1%float)] = Some c
           /\ float_value c = Some v
           /\ (Qabs (v - 1) <= tolerance 2)%Q.
Proof.
  split; [reflexivity |]. split; [reflexivity |].
  destruct (distribution_values
              (world_of_counts (rt := insertion_runtime) 7 xy_counts)
              eq_refl eq_refl) as (w' & E & F & H).
  exists w'. split; [exact E |]. split.
  - destruct (H "p" "x" "y") as [[_ D] | [O _]];
      [discriminate | reflexivity | exact D | discriminate O].
  - destruct (F "p" (or_introl eq_refl)) as (_ & _ & _ & C).
    apply C. reflexivity.
Defined.

(** C5 as stated fails: with sets that iterate by hash slot, the counts 3
    for [x] and 1 for [y], [x] observed first, give [(y, 0.25), (x, 1.0)]
    and not [(x, 0.75), (y, 1.0)]. *)
Lemma three_to_one_counterexample :
  dict_get "p"
    (cumulative_probs
       (self (snd (calculate_cumulative_probabilities
                     (world_of_counts (rt := slot_runtime) 7 xy_counts)))))
  = Some [("y", 0.25%float); ("x", 1%float)]
  /\ dict_get "p"
       (cumulative_probs
          (self (snd (calculate_cumulative_probabilities
                        (world_of_counts (rt := slot_runtime) 7 xy_counts)))))
     <> Some [("x", 0.75%float); ("y", 1%float)].
Proof. split; [reflexivity | discriminate]. Qed.

(* ================================================================== *)
(** * Further properties of the methods *)

(* ------------------------------------------------------------------ *)
(** ** [sample]: length and chain of the completion *)

Section SamplerChain.
Context {rt : PyRuntime}.

(** From the token [last] on, the loop appends at most [rounds] words, and
    each of them is listed in the distribution of the word before it. *)
Lemma sample_loop_chain (rounds : nat) :
  forall before last w out,
    fst (sample_loop rounds (before ++ [last]) w) = Ok out ->
    exists generated,
      out = (before ++ [last]) ++ generated
      /\ (List.length generated <= rounds)%nat
      /\ forall a b,
           In (a, b) (adjacent (last :: generated)) ->
           exists dist,
             dict_get a (cumulative_probs (self w)) = Some dist
             /\ In b (map fst dist).
Proof.
  induction rounds as [| n IH]; intros before last w out; simpl.
  - intros [= <-]. exists []. rewrite app_nil_r. repeat split; auto.
    intros a b [].
  - unfold bind at 1. rewrite last_item_snoc. unfold bind at 1. unfold read.
    destruct (dict_get last (cumulative_probs (self w))) as [dist |] eqn:D.
    2:{ intros [= <-]. exists []. rewrite app_nil_r.
        repeat split; auto with arith. intros a b []. }
    unfold bind, random_random.
    destruct (next_random (random_state w)) as [x g].
    destruct (pick x dist) as [word |] eqn:Pk.
    2:{ intros [= <-]. exists []. rewrite app_nil_r.
        repeat split; auto with arith. intros a b []. }
    intros E. apply IH in E as (gen & -> & Hlen & Hch).
    exists (word :: gen). split; [now rewrite <- app_assoc |].
    split; [simpl; lia |].
    intros a b [[= <- <-] | I].
    + exists dist. split; [assumption | now apply (pick_In x)].
    + simpl in Hch. now apply Hch.
Qed.

Lemma sample_start (seed : option Z) (w : World) :
  self match seed with
       | Some s => with_random_state (seed_state s) w
       | None => w
       end = self w.
Proof. now destruct seed. Qed.

End SamplerChain.

(** X1. [sample] returns at most [max_tokens] tokens (none when
    [max_tokens <= 0]), its text is those tokens joined by single spaces, and
    the only way it raises is [IndexError], on a prefix without tokens with
    [max_tokens >= 1]. *)
Theorem sample_outcome {rt : PyRuntime} :
  forall (w : World) (prefix : string) (max_tokens : Z) (seed : option Z),
    match fst (sample prefix max_tokens seed w) with
    | Ok c =>
        Z.of_nat (List.length (tokens c)) <= Z.max 0 max_tokens
        /\ completion c = join " " (tokens c)
    | Raise e =>
        e = IndexError /\ line_tokens prefix = [] /\ 1 <= max_tokens
    end.
Proof.
  intros w prefix max_tokens seed. rewrite sample_unfold. simpl.
  fold (line_tokens prefix).
  set (w0 := match seed with
             | Some s => with_random_state (seed_state s) w
             | None => w
             end).
  destruct (sample_loop (Z.to_nat max_tokens) (line_tokens prefix) w0)
    as [[out | e] w1] eqn:E; simpl.
  - split; [| reflexivity].
    destruct (line_tokens prefix) as [| t0 ts] eqn:Etok using rev_ind.
    + destruct (Z.to_nat max_tokens) as [| n] eqn:En; simpl in E.
      * injection E as <- _. simpl. lia.
      * discriminate E.
    + clear IHts.
      destruct (sample_loop_chain (Z.to_nat max_tokens) ts t0 w0 out)
        as (gen & -> & Hlen & _); [now rewrite E |].
      rewrite skipn_length_app. lia.
  - destruct (sample_loop_raises (Z.to_nat max_tokens) (line_tokens prefix)
                w0 e) as [-> Etok]; [now rewrite E |].
    split; [reflexivity |]. split; [assumption |].
    destruct (Z.to_nat max_tokens) as [| n] eqn:En; [| lia].
    rewrite Etok in E. discriminate E.
Qed.

(** X2. On an instance reached by training, [sample] on a prefix with at
    least one token returns, and the completion is a chain of counted
    bigrams: the last prefix token followed by the returned tokens has every
    adjacent pair as a key of [bigram_counts]. *)
Theorem sample_walks_counted_bigrams {rt : PyRuntime} :
  forall (w : World) (prefix : string) (max_tokens : Z) (seed : option Z)
         (before : list Token) (last : Token),
    trained w ->
    line_tokens prefix = before ++ [last] ->
    exists c,
      fst (sample prefix max_tokens seed w) = Ok c
      /\ forall a b,
           In (a, b) (adjacent (last :: tokens c)) ->
           exists count,
             In (KTuple a b, count) (bigram_counts (self w)) /\ 1 <= count.
Proof.
  intros w prefix max_tokens seed before last Tr Etok.
  destruct (trained_well_formed w Tr) as (_ & Pos & Snd).
  rewrite sample_unfold. simpl. fold (line_tokens prefix). rewrite Etok.
  set (w0 := match seed with
             | Some s => with_random_state (seed_state s) w
             | None => w
             end).
  assert (Hself : self w0 = self w) by apply sample_start.
  destruct (sample_loop (Z.to_nat max_tokens) (before ++ [last]) w0)
    as [[out | e] w1] eqn:E; simpl.
  - destruct (sample_loop_chain (Z.to_nat max_tokens) before last w0 out)
      as (gen & -> & _ & Hch); [now rewrite E |].
    eexists. split; [reflexivity |]. simpl.
    rewrite skipn_length_app. intros a b I.
    destruct (Hch a b I) as (dist & D & J). rewrite Hself in D.
    destruct (Snd a dist b D J) as [c Hc].
    destruct (positive_count_of _ a b c Pos Hc) as [G1 G2].
    exists (count_of (bigram_counts (self w)) a b).
    split; [now apply dict_get_In | assumption].
  - destruct (sample_loop_raises (Z.to_nat max_tokens) (before ++ [last])
                w0 e) as [_ N]; [now rewrite E |].
    now destruct before.
Qed.

Lemma sample_walks_counted_bigrams_witness :
  trained (abc_world (rt := insertion_runtime) 3)
  /\ line_tokens " B a" = ["b"] ++ ["a"]
  /\ exists c,
      fst (sample " B a" 6 (Some 11) (abc_world (rt := insertion_runtime) 3))
      = Ok c
      /\ forall a b,
           In (a, b) (adjacent ("a" :: tokens c)) ->
           exists count,
             In (KTuple a b, count)
                (bigram_counts (self (abc_world (rt := insertion_runtime) 3)))
             /\ 1 <= count.
Proof.
  assert (Tr : trained (abc_world (rt := insertion_runtime) 3))
    by (apply trained_train, trained_init).
  split; [exact Tr |]. split; [reflexivity |].
  apply (sample_walks_counted_bigrams
           (abc_world (rt := insertion_runtime) 3) " B a" 6 (Some 11)
           ["b"] "a" Tr eq_refl).
Defined.

(* ------------------------------------------------------------------ *)
(** ** [train]: what is counted *)

Section TrainCounts.
Context {rt : PyRuntime}.

Lemma for_each_preserves {A X} (f : World -> X) (l : list A)
    (body : A -> M unit) :
  (forall x w, f (snd (body x w)) = f w) ->
  forall w, f (snd (for_each l body w)) = f w.
Proof.
  intros Hb. induction l as [| x r IH]; intros w; simpl; [reflexivity |].
  unfold bind. specialize (Hb x w).
  destruct (body x w) as [[[] | e] w1]; simpl in *; [| assumption].
  now rewrite IH.
Qed.

Lemma for_each_app {A} (l1 l2 : list A) (body : A -> M unit) (w : World) :
  for_each (l1 ++ l2) body w
  = (for_each l1 body ;; for_each l2 body) w.
Proof.
  revert w. induction l1 as [| x r IH]; intros w; simpl; [reflexivity |].
  unfold bind. destruct (body x w) as [[[] | e] w1]; [| reflexivity].
  rewrite IH. reflexivity.
Qed.

Lemma word_count_of_set wc t v t' :
  word_count_of (dict_set t v wc) t'
  = if String.eqb t' t then v else word_count_of wc t'.
Proof.
  unfold word_count_of. destruct (String.eqb_spec t' t) as [-> | N].
  - now rewrite dict_get_set_same.
  - now rewrite dict_get_set_other.
Qed.

Lemma count_of_set bc a b v a' b' :
  count_of (dict_set (KTuple a b) v bc) a' b'
  = if bigram_dec (a', b') (a, b) then v else count_of bc a' b'.
Proof.
  unfold count_of. destruct (bigram_dec (a', b') (a, b)) as [E | N].
  - injection E as -> ->. now rewrite dict_get_set_same.
  - rewrite dict_get_set_other; [reflexivity | congruence].
Qed.

(** The first loop of a line: one more for every occurrence of a token. *)
Lemma count_words_spec (toks : list Token) :
  forall (w : World),
    exists wc',
      for_each toks count_word w = (Ok tt, with_word_counts wc' w)
      /\ forall t,
           word_count_of wc' t
           = word_count_of (word_counts (self w)) t
             + Z.of_nat (count_occ string_dec toks t).
Proof.
  induction toks as [| t0 r IH]; intros w; simpl.
  - exists (word_counts (self w)). split; [| intros; lia].
    unfold ret. now destruct w as [[? ? ?] ? ?].
  - unfold bind, count_word at 1, bind, read, set_word_counts, update.
    fold (word_count_of (word_counts (self w)) t0).
    destruct (IH (with_word_counts
                    (dict_set t0 (word_count_of (word_counts (self w)) t0 + 1)
                       (word_counts (self w))) w)) as (wc' & -> & Hc).
    exists wc'. split; [reflexivity |].
    intros t. rewrite Hc. simpl. rewrite word_count_of_set.
    destruct (string_dec t0 t) as [-> | N].
    + rewrite String.eqb_refl. lia.
    + rewrite (proj2 (String.eqb_neq t t0)) by congruence. lia.
Qed.

Lemma count_bigram_at toks i (w : World) :
  (i + 1 < List.length toks)%nat ->
  count_bigram toks i w
  = (Ok tt,
     with_bigram_counts
       (dict_set
          (KTuple (nth i toks EmptyString) (nth (i + 1) toks EmptyString))
          (count_of (bigram_counts (self w)) (nth i toks EmptyString)
             (nth (i + 1) toks EmptyString) + 1)
          (bigram_counts (self w))) w).
Proof.
  intros Hi. unfold count_bigram, index.
  rewrite (nth_error_nth' toks EmptyString) by lia.
  rewrite (nth_error_nth' toks EmptyString (n := i + 1)) by lia.
  reflexivity.
Qed.

(** The second loop of a line, over any valid positions. *)
Lemma count_bigrams_spec toks (positions : list nat) :
  forall (w : World),
    (forall i, In i positions -> (i + 1 < List.length toks)%nat) ->
    exists bc',
      for_each positions (count_bigram toks) w
      = (Ok tt, with_bigram_counts bc' w)
      /\ forall a b,
           count_of bc' a b
           = count_of (bigram_counts (self w)) a b
             + Z.of_nat
                 (count_occ bigram_dec
                    (map (fun i => (nth i toks EmptyString,
                                    nth (i + 1) toks EmptyString))
                       positions) (a, b)).
Proof.
  induction positions as [| i r IH]; intros w Hv; simpl.
  - exists (bigram_counts (self w)). split; [| intros; lia].
    unfold ret. now destruct w as [[? ? ?] ? ?].
  - unfold bind. rewrite count_bigram_at by (apply Hv; now left).
    match goal with
    | |- context [for_each r _ ?w1] =>
        destruct (IH w1) as (bc' & -> & Hc);
          [intros j J; apply Hv; now right |]
    end.
    exists bc'. split; [reflexivity |].
    intros a b. rewrite Hc. simpl. rewrite count_of_set.
    destruct (bigram_dec (nth i toks EmptyString,
                          nth (i + 1) toks EmptyString) (a, b)) as [E | N].
    + destruct (bigram_dec (a, b)
                  (nth i toks EmptyString, nth (i + 1) toks EmptyString))
        as [_ | N']; [| congruence].
      injection E as <- <-. lia.
    + destruct (bigram_dec (a, b)
                  (nth i toks EmptyString, nth (i + 1) toks EmptyString))
        as [E' | _]; [congruence | lia].
Qed.

(** The positions of the loop are those of the adjacent pairs. *)
Lemma adjacent_positions (toks : list Token) :
  adjacent toks
  = map (fun i => (nth i toks EmptyString, nth (i + 1) toks EmptyString))
      (seq 0 (List.length toks - 1)).
Proof.
  induction toks as [| x r IH]; [reflexivity |].
  destruct r as [| y r']; [reflexivity |].
  change (adjacent (x :: y :: r')) with ((x, y) :: adjacent (y :: r')).
  rewrite IH. simpl List.length.
  replace (S (S (List.length r')) - 1)%nat with (S (List.length r'))
    by lia.
  replace (S (List.length r') - 1)%nat with (List.length r') by lia.
  cbn [seq map]. rewrite <- seq_shift, map_map. reflexivity.
Qed.

Lemma train_line_spec line (w : World) :
  exists wc' bc',
    train_line line w = (Ok tt, with_bigram_counts bc' (with_word_counts wc' w))
    /\ (forall t,
          word_count_of wc' t
          = word_count_of (word_counts (self w)) t
            + Z.of_nat (count_occ string_dec (line_tokens line) t))
    /\ (forall a b,
          count_of bc' a b
          = count_of (bigram_counts (self w)) a b
            + Z.of_nat (count_occ bigram_dec (adjacent (line_tokens line))
                          (a, b))).
Proof.
  unfold train_line. fold (line_tokens line).
  destruct (line_tokens line) as [| t0 ts] eqn:E.
  - exists (word_counts (self w)), (bigram_counts (self w)).
    split; [| split; intros; simpl; lia].
    unfold ret. now destruct w as [[? ? ?] ? ?].
  - destruct (count_words_spec (t0 :: ts) w) as (wc' & E1 & Hw).
    rewrite (bind_ok _ _ _ _ _ E1).
    destruct (count_bigrams_spec (t0 :: ts)
                (seq 0 (List.length (t0 :: ts) - 1))
                (with_word_counts wc' w)) as (bc' & E2 & Hb).
    { intros i I. apply in_seq in I. lia. }
    exists wc', bc'. split; [exact E2 |]. split; [exact Hw |].
    intros a b. rewrite Hb, <- adjacent_positions. reflexivity.
Qed.

Lemma train_lines_spec corpus :
  forall (w : World),
    exists wc' bc',
      for_each corpus train_line w
      = (Ok tt, with_bigram_counts bc' (with_word_counts wc' w))
      /\ (forall t,
            word_count_of wc' t
            = word_count_of (word_counts (self w)) t
              + Z.of_nat (count_occ string_dec (corpus_words corpus) t))
      /\ (forall a b,
            count_of bc' a b
            = count_of (bigram_counts (self w)) a b
              + Z.of_nat (count_occ bigram_dec (corpus_bigrams corpus)
                            (a, b))).
Proof.
  induction corpus as [| line r IH]; intros w; simpl.
  - exists (word_counts (self w)), (bigram_counts (self w)).
    split; [| split; intros; lia].
    unfold ret. now destruct w as [[? ? ?] ? ?].
  - destruct (train_line_spec line w) as (wc1 & bc1 & E1 & Hw1 & Hb1).
    rewrite (bind_ok _ _ _ _ _ E1).
    destruct (IH (with_bigram_counts bc1 (with_word_counts wc1 w)))
      as (wc2 & bc2 & -> & Hw2 & Hb2).
    exists wc2, bc2. split; [reflexivity |]. simpl in Hw2, Hb2.
    unfold corpus_words, corpus_bigrams. simpl.
    split; [intros t | intros a b]; rewrite count_occ_app.
    + rewrite Hw2, Hw1, Nat2Z.inj_add. fold (corpus_words r).
      unfold Token in *. lia.
    + rewrite Hb2, Hb1, Nat2Z.inj_add. fold (corpus_bigrams r).
      unfold Token in *. lia.
Qed.

(** The builder writes to [cumulative_probs] only, also when it raises. *)
Lemma sum_counts_pure word ws :
  forall acc (w : World), snd (sum_counts word ws acc w) = w.
Proof.
  induction ws as [| s r IH]; intros acc w; simpl; [reflexivity |].
  unfold bind, lookup_count, bind, read.
  destruct (dict_get (KTuple word s) (bigram_counts (self w))); simpl; auto.
Qed.

Lemma distribution_loop_counts word total ws :
  forall cum (w : World),
    bigram_counts (self (snd (distribution_loop word total ws cum w)))
    = bigram_counts (self w)
    /\ word_counts (self (snd (distribution_loop word total ws cum w)))
       = word_counts (self w).
Proof.
  induction ws as [| s r IH]; intros cum w; simpl; [now split |].
  unfold lookup_count, append_cumulative, lift, truediv,
    set_cumulative_probs, update, read, bind.
  destruct (dict_get (KTuple word s) (bigram_counts (self w))) as [c |];
    simpl; [| now split].
  destruct (total =? 0); simpl; [now split |].
  destruct (dict_get word (cumulative_probs (self w))) as [l |]; simpl;
    [| now split].
  match goal with
  | |- context [distribution_loop word total r ?c ?w1] =>
      destruct (IH c w1) as [E1 E2]; rewrite E1, E2
  end.
  now split.
Qed.

Lemma calculate_counts (w : World) :
  bigram_counts (self (snd (calculate_cumulative_probabilities w)))
  = bigram_counts (self w)
  /\ word_counts (self (snd (calculate_cumulative_probabilities w)))
     = word_counts (self w).
Proof.
  unfold calculate_cumulative_probabilities, bind at 1.
  unfold get_following_words, bind, read, lift.
  destruct (following_loop (bigram_counts (self w)) []) as [fw | e];
    [| now split].
  match goal with
  | |- context [for_each fw ?b w] => set (body := b)
  end.
  assert (G : forall w1,
             (fun w0 => (bigram_counts (self w0), word_counts (self w0)))
               (snd (for_each fw body w1))
             = (bigram_counts (self w1), word_counts (self w1))).
  { apply (for_each_preserves
             (fun w0 => (bigram_counts (self w0), word_counts (self w0)))).
    intros [word following] w1. subst body. cbv beta iota.
    pose proof (sum_counts_pure word (set_iter following) 0 w1) as Sp.
    destruct (sum_counts word (set_iter following) 0 w1) as [[total | e] w2];
      simpl in Sp; subst w2; [| reflexivity].
    unfold bind, read, set_cumulative_probs, update.
    match goal with
    | |- context [distribution_loop word total ?ws ?c ?w3] =>
        destruct (distribution_loop_counts word total ws c w3) as [E1 E2]
    end.
    cbv beta. rewrite E1, E2. reflexivity. }
  specialize (G w). cbv beta in G. injection G as G1 G2. now split.
Qed.

End TrainCounts.

(** X3. [train] adds to [word_counts] one for every occurrence of a token
    in the (stripped, lowercased) lines of the corpus and to [bigram_counts]
    one for every adjacent pair of tokens within a line, on any instance:
    after the call each count is the count before plus the number of
    occurrences. *)
Theorem train_counts_occurrences {rt : PyRuntime} :
  forall (w : World) (corpus : list string),
    (forall t,
       word_count_of (word_counts (self (snd (train corpus w)))) t
       = word_count_of (word_counts (self w)) t
         + Z.of_nat (count_occ string_dec (corpus_words corpus) t))
    /\ (forall a b,
          count_of (bigram_counts (self (snd (train corpus w)))) a b
          = count_of (bigram_counts (self w)) a b
            + Z.of_nat (count_occ bigram_dec (corpus_bigrams corpus) (a, b))).
Proof.
  intros w corpus. unfold train.
  destruct (train_lines_spec corpus w) as (wc' & bc' & E & Hw & Hb).
  rewrite (bind_ok _ _ _ _ _ E).
  destruct (calculate_counts
              (with_bigram_counts bc' (with_word_counts wc' w))) as [E1 E2].
  rewrite E1, E2. simpl. split; assumption.
Qed.

(* ------------------------------------------------------------------ *)
(** ** [train]: composition and the distributions it leaves *)

Section TrainComposition.
Context {rt : PyRuntime}.

Lemma cp_blind_bind {A B} (c : M A) (k : A -> M B) :
  cp_blind c -> (forall a, cp_blind (k a)) -> cp_blind (bind c k).
Proof.
  intros Hc Hk d w. unfold bind. rewrite Hc.
  destruct (c w) as [[a | e] w1]; simpl; [apply Hk | reflexivity].
Qed.

Lemma cp_blind_for_each {A} (l : list A) (body : A -> M unit) :
  (forall x, cp_blind (body x)) -> cp_blind (for_each l body).
Proof.
  intros Hb. induction l as [| x r IH]; simpl.
  - intros d w. reflexivity.
  - apply cp_blind_bind; auto.
Qed.

Lemma cp_blind_count_word t : cp_blind (count_word t).
Proof. intros d w. reflexivity. Qed.

Lemma cp_blind_count_bigram toks i : cp_blind (count_bigram toks i).
Proof.
  intros d w. unfold count_bigram, index, bind.
  destruct (nth_error toks i); [| reflexivity].
  destruct (nth_error toks (i + 1)); reflexivity.
Qed.

Lemma cp_blind_train_line line : cp_blind (train_line line).
Proof.
  unfold train_line. destruct (tokenize (lower (strip line))).
  - intros d w. reflexivity.
  - apply cp_blind_bind.
    + apply cp_blind_for_each, cp_blind_count_word.
    + intros _. apply cp_blind_for_each, cp_blind_count_bigram.
Qed.

Lemma count_of_key bc a b :
  1 <= count_of bc a b -> exists c, In (KTuple a b, c) bc.
Proof.
  unfold count_of. destruct (dict_get (KTuple a b) bc) as [c |] eqn:E;
    [| lia].
  intros _. exists c. now apply dict_get_In.
Qed.

(** The loop over the lines: it returns, keeps the instance well formed,
    leaves the distributions alone and lowers no count. *)
Lemma train_lines_unfold corpus (w : World) :
  well_formed w ->
  exists w1,
    for_each corpus train_line w = (Ok tt, w1)
    /\ well_formed w1
    /\ cumulative_probs (self w1) = cumulative_probs (self w)
    /\ (forall P, In P (predecessors (bigram_counts (self w))) ->
                  In P (predecessors (bigram_counts (self w1)))).
Proof.
  intros W.
  destruct (for_each_invariant well_formed corpus train_line) with (w := w)
    as (w1 & E1 & W1); [| assumption |].
  { intros line w2 _ W2. now apply train_line_well_formed. }
  exists w1. split; [exact E1 |]. split; [exact W1 |].
  destruct (train_lines_spec corpus w) as (wc' & bc' & E & _ & Hb).
  rewrite E1 in E. injection E as ->. split; [reflexivity |].
  intros P I. simpl. apply predecessors_In in I as (s & c & I).
  destruct W as (_ & Pos & _).
  destruct (positive_count_of _ P s c Pos I) as [_ G].
  apply predecessors_In.
  destruct (count_of_key bc' P s) as [c' Hc']; [rewrite Hb; lia | eauto].
Qed.

Lemma train_unfold corpus (w : World) :
  well_formed w ->
  exists w1,
    for_each corpus train_line w = (Ok tt, w1)
    /\ well_formed w1
    /\ cumulative_probs (self w1) = cumulative_probs (self w)
    /\ (forall P, In P (predecessors (bigram_counts (self w))) ->
                  In P (predecessors (bigram_counts (self w1))))
    /\ train corpus w
       = (Ok tt,
          with_cumulative_probs
            (built_distributions (bigram_counts (self w1))
               (cumulative_probs (self w1))) w1).
Proof.
  intros W. destruct (train_lines_unfold corpus w W)
    as (w1 & E1 & W1 & Ecp & Hm).
  exists w1. repeat (split; [assumption |]).
  unfold train. rewrite (bind_ok _ _ _ _ _ E1).
  destruct W1 as (T & Pos & _). now apply calculate_spec.
Qed.

(** Building on top of built distributions changes nothing. *)
Lemma fold_dict_set_same {V} (f : Token -> V) (ps : list Token) :
  forall (d : dict Token V),
    (forall Q, In Q ps -> dict_get Q d = Some (f Q)) ->
    fold_left (fun cp Q => dict_set Q (f Q) cp) ps d = d.
Proof.
  induction ps as [| Q ps IH]; intros d Hd; simpl; [reflexivity |].
  rewrite dict_set_get_same by (apply Hd; now left).
  apply IH. intros Q' I. apply Hd. now right.
Qed.

Lemma built_distributions_idempotent bc cp :
  built_distributions bc (built_distributions bc cp)
  = built_distributions bc cp.
Proof.
  unfold built_distributions at 1.
  apply (fold_dict_set_same
           (fun Q => distribution_of bc Q
                       (set_iter (first_observation_order bc Q)))).
  intros Q I. rewrite built_distributions_get.
  apply existsb_eqb_In in I. now rewrite I.
Qed.

(** On a reachable instance the stored distributions are those of the
    current counts. *)
Lemma trained_distributions_fresh (w : World) :
  trained w ->
  forall P,
    dict_get P (cumulative_probs (self w))
    = dict_get P (built_distributions (bigram_counts (self w)) []).
Proof.
  induction 1 as [g fs | w corpus Tr IH | w prefix n seed _ IH
                  | w model_file _ IH]; intros P.
  - reflexivity.
  - destruct (train_unfold corpus w (trained_well_formed w Tr))
      as (w1 & _ & _ & Ecp & Hm & ->).
    simpl. rewrite !built_distributions_get.
    destruct (existsb (String.eqb P) (predecessors (bigram_counts (self w1))))
      eqn:E; [reflexivity |].
    rewrite Ecp, IH, built_distributions_get.
    destruct (existsb (String.eqb P) (predecessors (bigram_counts (self w))))
      eqn:E0; [| reflexivity].
    apply existsb_eqb_In, Hm, existsb_eqb_In in E0. congruence.
  - destruct (sample_frame prefix n seed w) as [-> _]. apply IH.
  - rewrite save_model_frame. apply IH.
Qed.

End TrainComposition.

(** X4. On an instance reached by training, a further call of [train]
    returns without raising (no [KeyError], [IndexError] or
    [ZeroDivisionError]), and leaves tuple keys only, counts of at least 1,
    and every predecessor it had before still a predecessor. *)
Theorem train_returns {rt : PyRuntime} :
  forall (w : World) (corpus : list string),
    trained w ->
    fst (train corpus w) = Ok tt
    /\ tuple_keys (bigram_counts (self (snd (train corpus w)))) = true
    /\ positive_counts (bigram_counts (self (snd (train corpus w)))) = true
    /\ forall P,
         In P (predecessors (bigram_counts (self w))) ->
         In P (predecessors (bigram_counts (self (snd (train corpus w))))).
Proof.
  intros w corpus Tr.
  destruct (train_unfold corpus w (trained_well_formed w Tr))
    as (w1 & _ & (T & Pos & _) & _ & Hm & ->).
  simpl. auto.
Qed.

Lemma train_returns_witness :
  trained (abc_world (rt := slot_runtime) 3)
  /\ fst (train ["c a"; ""; "solo"] (abc_world (rt := slot_runtime) 3))
     = Ok tt.
Proof.
  assert (Tr : trained (abc_world (rt := slot_runtime) 3))
    by (apply trained_train, trained_init).
  split; [exact Tr |].
  destruct (train_returns (abc_world (rt := slot_runtime) 3)
              ["c a"; ""; "solo"] Tr) as [E _].
  exact E.
Defined.

(** X5. On an instance reached by training the stored distributions are
    never stale: a token has an entry in [cumulative_probs] exactly when it
    is a predecessor in [bigram_counts], and the entry is the distribution of
    the current counts over its successor set. *)
Theorem trained_distributions_current {rt : PyRuntime} :
  forall (w : World) (P : Token),
    trained w ->
    let bc := bigram_counts (self w) in
    dict_get P (cumulative_probs (self w))
    = if existsb (String.eqb P) (predecessors bc)
      then Some (distribution_of bc P
                   (set_iter (first_observation_order bc P)))
      else None.
Proof.
  intros w P Tr bc.
  rewrite (trained_distributions_fresh w Tr P).
  now rewrite built_distributions_get.
Qed.

Lemma trained_distributions_current_witness :
  trained (abc_world (rt := slot_runtime) 3)
  /\ dict_get "c" (cumulative_probs (self (abc_world (rt := slot_runtime) 3)))
     = None
  /\ dict_get "b" (cumulative_probs (self (abc_world (rt := slot_runtime) 3)))
     = Some [("a", 1%float)].
Proof.
  assert (Tr : trained (abc_world (rt := slot_runtime) 3))
    by (apply trained_train, trained_init).
  split; [exact Tr |].
  split.
  - etransitivity;
      [exact (trained_distributions_current
                (abc_world (rt := slot_runtime) 3) "c" Tr) | reflexivity].
  - etransitivity;
      [exact (trained_distributions_current
                (abc_world (rt := slot_runtime) 3) "b" Tr) | reflexivity].
Defined.

(** X6. Training in two calls is training once on the concatenated corpus:
    from an instance reached by training both return, with the same
    [bigram_counts] and [word_counts] (same items in the same order) and the
    same distribution for every token. *)
Theorem train_twice_is_train_concatenated {rt : PyRuntime} :
  forall (w : World) (c1 c2 : list string),
    trained w ->
    let two := (train c1 ;; train c2) w in
    let one := train (c1 ++ c2) w in
    fst two = Ok tt /\ fst one = Ok tt
    /\ bigram_counts (self (snd two)) = bigram_counts (self (snd one))
    /\ word_counts (self (snd two)) = word_counts (self (snd one))
    /\ forall P,
         dict_get P (cumulative_probs (self (snd two)))
         = dict_get P (cumulative_probs (self (snd one))).
Proof.
  intros w c1 c2 Tr.
  pose proof (trained_well_formed w Tr) as W.
  destruct (train_unfold c1 w W) as (w1 & E1 & W1 & Ecp1 & _ & T1).
  destruct (train_lines_unfold c2 w1 W1) as (w2 & E2 & W2 & Ecp2 & Hm).
  assert (Eone : train (c1 ++ c2) w
                 = (Ok tt,
                    with_cumulative_probs
                      (built_distributions (bigram_counts (self w2))
                         (cumulative_probs (self w2))) w2)).
  { unfold train. rewrite (bind_ok _ _ _ w2 tt).
    - destruct W2 as (T & Pos & _). now apply calculate_spec.
    - rewrite for_each_app, (bind_ok _ _ _ _ _ E1). exact E2. }
  set (D1 := built_distributions (bigram_counts (self w1))
               (cumulative_probs (self w1))) in *.
  assert (Etwo : (train c1 ;; train c2) w
                 = (Ok tt,
                    with_cumulative_probs
                      (built_distributions (bigram_counts (self w2)) D1)
                      (with_cumulative_probs D1 w2))).
  { rewrite (bind_ok _ _ _ _ _ T1). unfold train.
    rewrite (bind_ok _ _ _ (with_cumulative_probs D1 w2) tt).
    - destruct W2 as (T & Pos & _).
      exact (calculate_spec (with_cumulative_probs D1 w2) T Pos).
    - rewrite (cp_blind_for_each c2 train_line cp_blind_train_line D1 w1).
      now rewrite E2. }
  cbv zeta. rewrite Etwo, Eone. simpl.
  repeat (split; [reflexivity |]).
  intros P. rewrite !built_distributions_get.
  destruct (existsb (String.eqb P) (predecessors (bigram_counts (self w2))))
    eqn:E; [reflexivity |].
  unfold D1. rewrite built_distributions_get.
  destruct (existsb (String.eqb P) (predecessors (bigram_counts (self w1))))
    eqn:E0; [| congruence].
  apply existsb_eqb_In, Hm, existsb_eqb_In in E0. congruence.
Qed.

Lemma train_twice_is_train_concatenated_witness :
  trained (world0 (rt := slot_runtime) 5)
  /\ bigram_counts
       (self (snd ((train ["a b"; "p y"] ;; train ["a c"; "p x"])
                     (world0 (rt := slot_runtime) 5))))
     = bigram_counts
         (self (snd (train (["a b"; "p y"] ++ ["a c"; "p x"])
                       (world0 (rt := slot_runtime) 5)))).
Proof.
  assert (Tr : trained (world0 (rt := slot_runtime) 5))
    by apply trained_init.
  split; [exact Tr |].
  pose proof (train_twice_is_train_concatenated
                (world0 (rt := slot_runtime) 5) ["a b"; "p y"]
                ["a c"; "p x"] Tr) as H.
  cbv zeta in H. destruct H as (_ & _ & E & _). exact E.
Defined.

(** X7. The builder is idempotent: on counts with tuple keys and positive
    values a second run of [calculate_cumulative_probabilities] returns and
    changes nothing. *)
Theorem calculate_idempotent {rt : PyRuntime} :
  forall (w : World),
    tuple_keys (bigram_counts (self w)) = true ->
    positive_counts (bigram_counts (self w)) = true ->
    calculate_cumulative_probabilities
      (snd (calculate_cumulative_probabilities w))
    = (Ok tt, snd (calculate_cumulative_probabilities w)).
Proof.
  intros w T Pos. rewrite (calculate_spec w T Pos). simpl.
  rewrite calculate_spec by assumption. simpl.
  now rewrite built_distributions_idempotent.
Qed.

Lemma calculate_idempotent_witness :
  tuple_keys xy_counts = true /\ positive_counts xy_counts = true
  /\ calculate_cumulative_probabilities
       (snd (calculate_cumulative_probabilities
               (world_of_counts (rt := slot_runtime) 7 xy_counts)))
     = (Ok tt,
        snd (calculate_cumulative_probabilities
               (world_of_counts (rt := slot_runtime) 7 xy_counts))).
Proof.
  split; [reflexivity |]. split; [reflexivity |].
  apply (calculate_idempotent
           (world_of_counts (rt := slot_runtime) 7 xy_counts)
           eq_refl eq_refl).
Defined.

(* ------------------------------------------------------------------ *)
(** ** [get_following_words] on any keys *)

Section FollowingAnyKeys.
Context {rt : PyRuntime}.

Lemma set_add_spec (x : Token) (s : pyset) (y : Token) :
  In y (set_add x s) <-> y = x \/ In y s.
Proof.
  destruct (in_dec string_dec x s) as [I | N].
  - rewrite (set_add_In _ _ I). split; [auto |]. intros [-> | J]; auto.
  - rewrite (set_add_fresh _ _ N), in_app_iff. simpl. intuition.
Qed.

Lemma set_add_NoDup (x : Token) (s : pyset) : NoDup s -> NoDup (set_add x s).
Proof.
  intros ND. destruct (in_dec string_dec x s) as [I | N].
  - now rewrite (set_add_In _ _ I).
  - rewrite (set_add_fresh _ _ N). apply NoDup_app; auto.
    + repeat constructor. intros [].
    + intros y J [<- | []]. contradiction.
Qed.

Lemma set_add_not_nil (x : Token) (s : pyset) : set_add x s <> [].
Proof.
  intros E. assert (I : In x (set_add x s)) by (apply set_add_spec; auto).
  rewrite E in I. exact I.
Qed.

(** One round of the loop, whatever the dictionary so far. *)
Lemma following_round (a b : Token) (fw : dict Token pyset) :
  (let fw1 := if dict_mem a fw then fw else dict_set a [] fw in
   match dict_get a fw1 with
   | Some s => Some (dict_set a (set_add b s) fw1)
   | None => None
   end)
  = Some (dict_set a
            (set_add b (match dict_get a fw with
                        | Some s => s
                        | None => []
                        end)) fw).
Proof.
  cbv zeta. unfold dict_mem.
  destruct (dict_get a fw) as [s |] eqn:E.
  - now rewrite E.
  - now rewrite dict_get_set_same, dict_set_set.
Qed.

Lemma collects_round done a b k c fw :
  unpack k = Ok (a, b) -> collects done fw ->
  collects (done ++ [(k, c)])
    (dict_set a (set_add b (match dict_get a fw with
                            | Some s => s
                            | None => []
                            end)) fw).
Proof.
  intros U C P. specialize (C P).
  destruct (String.eqb_spec P a) as [-> | N].
  - rewrite dict_get_set_same. split; [apply set_add_not_nil |].
    destruct (dict_get a fw) as [succs |].
    + destruct C as (_ & ND & HS). split; [now apply set_add_NoDup |].
      intros s. rewrite set_add_spec, HS. split.
      * intros [-> | (k' & c' & I & U')].
        -- exists k, c. split; [apply in_or_app; right; now left | exact U].
        -- exists k', c'. split; [apply in_or_app; now left | exact U'].
      * intros (k' & c' & I & U'). apply in_app_or in I as [I | [E | []]].
        -- right. eauto.
        -- left. injection E as <- <-. congruence.
    + split; [apply set_add_NoDup; constructor |].
      intros s. rewrite set_add_spec. split.
      * intros [-> | []]. exists k, c.
        split; [apply in_or_app; right; now left | exact U].
      * intros (k' & c' & I & U'). apply in_app_or in I as [I | [E | []]].
        -- exfalso. exact (C s k' c' I U').
        -- left. injection E as <- <-. congruence.
  - rewrite dict_get_set_other by assumption.
    destruct (dict_get P fw) as [succs |].
    + destruct C as (NE & ND & HS). split; [exact NE |]. split; [exact ND |].
      intros s. rewrite HS. split.
      * intros (k' & c' & I & U'). exists k', c'.
        split; [apply in_or_app; now left | exact U'].
      * intros (k' & c' & I & U'). apply in_app_or in I as [I | [E | []]].
        -- eauto.
        -- injection E as <- <-. congruence.
    + intros s k' c' I U'. apply in_app_or in I as [I | [E | []]].
      * exact (C s k' c' I U').
      * injection E as <- <-. congruence.
Qed.

Lemma unpack_raises k e : unpack k = Raise e -> e = ValueError.
Proof.
  destruct k as [a b | s]; simpl; [discriminate |].
  destruct s as [| c1 [| c2 [| c3 s]]]; congruence.
Qed.

Lemma following_loop_any done :
  forall items fw,
    collects done fw ->
    match following_loop items fw with
    | Ok fw' => collects (done ++ items) fw'
                /\ (fw <> [] \/ items <> [] -> fw' <> [])
    | Raise e =>
        e = ValueError
        /\ exists k c, In (k, c) items /\ unpack k = Raise ValueError
    end.
Proof.
  intros items. revert done.
  induction items as [| [k c] rest IH]; intros done fw C; simpl.
  - rewrite app_nil_r. split; [exact C | intros [N | N]; congruence].
  - destruct (unpack k) as [[a b] | e] eqn:U.
    + pose proof (following_round a b fw) as R. cbv zeta in R.
      destruct (dict_get a (if dict_mem a fw then fw else dict_set a [] fw))
        as [s |]; [| discriminate].
      injection R as ->.
      specialize (IH (done ++ [(k, c)]) _ (collects_round done a b k c fw U C)).
      destruct (following_loop rest _) as [fw' | e].
      * rewrite <- app_assoc in IH. destruct IH as [C' NE].
        split; [exact C' |]. intros _. apply NE. left.
        intros E. apply (f_equal (dict_get a)) in E.
        rewrite dict_get_set_same in E. discriminate E.
      * destruct IH as (-> & k' & c' & I & U'). split; [reflexivity |].
        exists k', c'. split; [now right | exact U'].
    + pose proof (unpack_raises k e U) as ->. split; [reflexivity |].
      exists k, c. split; [now left | exact U].
Qed.

Lemma collects_nil : collects [] [].
Proof. intros P s k c []. Qed.

End FollowingAnyKeys.

(** X8. [get_following_words] changes nothing.  It raises only
    [ValueError], and only when some key of [bigram_counts] does not unpack
    into two parts; otherwise it returns a dictionary whose sets are
    non-empty, hold no element twice, and hold for each predecessor exactly
    the second parts of the keys that unpack to it. *)
Theorem get_following_words_outcome {rt : PyRuntime} :
  forall (w : World),
    snd (get_following_words w) = w
    /\ match fst (get_following_words w) with
       | Ok fw =>
           forall P succs,
             dict_get P fw = Some succs ->
             succs <> [] /\ NoDup succs
             /\ forall s,
                  In s succs <->
                  exists k c,
                    In (k, c) (bigram_counts (self w))
                    /\ unpack k = Ok (P, s)
       | Raise e =>
           e = ValueError
           /\ exists k c,
                In (k, c) (bigram_counts (self w))
                /\ unpack k = Raise ValueError
       end.
Proof.
  intros w. unfold get_following_words, bind, read, lift. simpl.
  split; [reflexivity |].
  pose proof (following_loop_any [] (bigram_counts (self w)) [] collects_nil)
    as H.
  destruct (following_loop (bigram_counts (self w)) []) as [fw | e]; simpl.
  - destruct H as [C _]. intros P succs E. specialize (C P).
    rewrite E in C. exact C.
  - exact H.
Qed.

(* ------------------------------------------------------------------ *)
(** ** [save_model] and [load_model] on any instance *)

Section PersistenceAny.
Context {rt : PyRuntime}.

Lemma loaded_counts_no_tuple items a b :
  dict_get (KTuple a b) (loaded_counts items) = None.
Proof. induction items as [| [k v] r IH]; simpl; auto. Qed.

Lemma calculate_unfold (w : World) :
  calculate_cumulative_probabilities w
  = match following_loop (bigram_counts (self w)) [] with
    | Ok fw =>
        for_each fw (fun '(word, following_words) =>
          total_count <- sum_counts word (set_iter following_words) 0 ;;
          cp <- read (fun w => cumulative_probs (self w)) ;;
          set_cumulative_probs (dict_set word [] cp) ;;
          distribution_loop word total_count (set_iter following_words)
            0%float) w
    | Raise e => (Raise e, w)
    end.
Proof.
  unfold calculate_cumulative_probabilities, get_following_words.
  unfold bind at 1. unfold bind at 1. unfold read, lift.
  destruct (following_loop (bigram_counts (self w)) []); reflexivity.
Qed.

(** On counts without tuple keys the builder either does nothing (no
    counts at all) or raises before it writes anything. *)
Lemma calculate_without_tuples (w : World) :
  (forall a b, dict_get (KTuple a b) (bigram_counts (self w)) = None) ->
  snd (calculate_cumulative_probabilities w) = w
  /\ (fst (calculate_cumulative_probabilities w) = Ok tt
      <-> bigram_counts (self w) = []).
Proof.
  intros NT. rewrite calculate_unfold.
  pose proof (following_loop_any [] (bigram_counts (self w)) [] collects_nil)
    as H.
  destruct (following_loop (bigram_counts (self w)) []) as [fw | e] eqn:F.
  - destruct H as [C NE]. destruct fw as [| [word succs] fw'].
    + simpl. split; [reflexivity |]. split; [| reflexivity].
      intros _. destruct (bigram_counts (self w)) as [| kv r];
        [reflexivity |].
      exfalso. apply NE; [right; discriminate | reflexivity].
    + specialize (C word). simpl in C. rewrite String.eqb_refl in C.
      destruct C as (NEs & _ & _).
      assert (Hit : exists s r, set_iter succs = s :: r).
      { destruct (set_iter succs) as [| s r] eqn:E; [| eauto].
        exfalso. apply NEs. apply Permutation_nil. rewrite <- E.
        apply set_iter_perm. }
      destruct Hit as (s & r & E).
      cbn [for_each]. unfold bind at 1. unfold bind at 1. rewrite E.
      cbn [sum_counts]. unfold bind at 1. unfold lookup_count, bind, read.
      rewrite NT. simpl. split; [reflexivity |]. split; [discriminate |].
      intros E0. rewrite E0 in F. simpl in F. discriminate F.
  - simpl. split; [reflexivity |]. split; [discriminate |].
    intros E0. rewrite E0 in F. simpl in F. discriminate F.
Qed.

Lemma dump_counts_spec bc :
  if existsb (fun kv => match fst kv with
                        | KTuple _ _ => true
                        | KStr _ => false
                        end) bc
  then dump_counts bc = Raise TypeError
  else exists d, dump_counts bc = Ok d /\ loaded_counts d = bc.
Proof.
  induction bc as [| [[a b | s] c] r IH]; simpl.
  - exists []. now split.
  - reflexivity.
  - destruct (existsb _ r).
    + now rewrite IH.
    + destruct IH as (d & -> & E). exists ((s, c) :: d). simpl.
      now rewrite E.
Qed.

Lemma load_model_unfold model_file (w : World) :
  load_model model_file w
  = match dict_get model_file (model_files w) with
    | Some (JsonText doc) =>
        calculate_cumulative_probabilities
          (with_word_counts (md_word_counts doc)
             (with_bigram_counts (loaded_counts (md_bigram_counts doc)) w))
    | Some Truncated | None => (Raise (SystemExit 1), w)
    end.
Proof.
  unfold load_model, bind at 1, read.
  destruct (dict_get model_file (model_files w)) as [[doc |] |];
    reflexivity.
Qed.

End PersistenceAny.

(** X9. [load_model] returns normally exactly when the file holds a document
    whose [bigram_counts] object is empty; a missing or invalid file ends
    with [exit(1)] and leaves the instance as it was; and in no case does the
    call change [cumulative_probs]: the distributions of a loaded model are
    never built. *)
Theorem load_model_outcome {rt : PyRuntime} :
  forall (w : World) (model_file : string),
    cumulative_probs (self (snd (load_model model_file w)))
    = cumulative_probs (self w)
    /\ (fst (load_model model_file w) = Ok tt
        <-> exists doc,
              dict_get model_file (model_files w) = Some (JsonText doc)
              /\ md_bigram_counts doc = [])
    /\ ((dict_get model_file (model_files w) = None
         \/ dict_get model_file (model_files w) = Some Truncated) ->
        load_model model_file w = (Raise (SystemExit 1), w)).
Proof.
  intros w model_file. rewrite load_model_unfold.
  destruct (dict_get model_file (model_files w)) as [[doc |] |] eqn:F.
  - destruct (calculate_without_tuples
                (with_word_counts (md_word_counts doc)
                   (with_bigram_counts
                      (loaded_counts (md_bigram_counts doc)) w)))
      as [Es Eok].
    { intros a b. apply (loaded_counts_no_tuple (md_bigram_counts doc)). }
    rewrite Es, Eok. split; [reflexivity |].
    split; [| intros [N | N]; discriminate N].
    simpl. split.
    + intros E. exists doc. split; [reflexivity |].
      now destruct (md_bigram_counts doc).
    + intros (doc' & [= <-] & ->). reflexivity.
  - simpl. split; [reflexivity |]. split; [| reflexivity].
    split; [discriminate | intros (doc & N & _); discriminate N].
  - simpl. split; [reflexivity |]. split; [| reflexivity].
    split; [discriminate | intros (doc & N & _); discriminate N].
Qed.

(** X10. [save_model] never changes the instance.  When some key of
    [bigram_counts] is a tuple it raises [TypeError] and the file is left
    without a valid document, whatever it held before; when no key is a
    tuple it returns and the file holds the two dictionaries. *)
Theorem save_model_outcome {rt : PyRuntime} :
  forall (w : World) (model_file : string),
    self (snd (save_model model_file w)) = self w
    /\ if existsb (fun kv => match fst kv with
                             | KTuple _ _ => true
                             | KStr _ => false
                             end) (bigram_counts (self w))
       then fst (save_model model_file w) = Raise TypeError
            /\ dict_get model_file (model_files (snd (save_model model_file w)))
               = Some Truncated
       else fst (save_model model_file w) = Ok tt
            /\ exists doc,
                 dict_get model_file
                   (model_files (snd (save_model model_file w)))
                 = Some (JsonText doc)
                 /\ loaded_counts (md_bigram_counts doc)
                    = bigram_counts (self w)
                 /\ md_word_counts doc = word_counts (self w).
Proof.
  intros w model_file. split; [apply save_model_frame |].
  pose proof (dump_counts_spec (bigram_counts (self w))) as D.
  unfold save_model, bind, read. simpl.
  destruct (existsb _ (bigram_counts (self w))).
  - rewrite D. simpl. split; [reflexivity | apply dict_get_set_same].
  - destruct D as (d & -> & E). simpl. split; [reflexivity |].
    eexists. split; [apply dict_get_set_same |]. simpl. now split.
Qed.

(** X11. An instance without bigrams (every training line had a single
    token) is saved, and any instance that then loads the file returns with
    empty [bigram_counts] and the saved [word_counts]. *)
Theorem save_load_without_bigrams {rt : PyRuntime} :
  forall (w reader : World) (model_file : string),
    bigram_counts (self w) = [] ->
    model_files reader = model_files (snd (save_model model_file w)) ->
    fst (save_model model_file w) = Ok tt
    /\ fst (load_model model_file reader) = Ok tt
    /\ bigram_counts (self (snd (load_model model_file reader))) = []
    /\ word_counts (self (snd (load_model model_file reader)))
       = word_counts (self w).
Proof.
  intros w reader model_file Ebc Efiles.
  assert (Es : save_model model_file w
               = (Ok tt,
                  with_model_files
                    (dict_set model_file
                       (JsonText {| md_bigram_counts := [];
                                    md_word_counts := word_counts (self w) |})
                       (model_files w)) w)).
  { unfold save_model, bind, read. simpl. rewrite Ebc. reflexivity. }
  rewrite Es in *. simpl in Efiles. split; [reflexivity |].
  rewrite load_model_unfold, Efiles, dict_get_set_same.
  repeat split; reflexivity.
Qed.

Lemma save_load_without_bigrams_witness :
  bigram_counts
    (self (snd (train ["Hello"; "world"; "hello"]
                  (world0 (rt := slot_runtime) 1)))) = []
  /\ word_counts
       (self (snd (load_model "m.json"
                     (snd (save_model "m.json"
                             (snd (train ["Hello"; "world"; "hello"]
                                     (world0 (rt := slot_runtime) 1))))))))
     = [("hello", 2); ("world", 1)].
Proof.
  split; [reflexivity |].
  destruct (save_load_without_bigrams
              (snd (train ["Hello"; "world"; "hello"]
                      (world0 (rt := slot_runtime) 1)))
              (snd (save_model "m.json"
                      (snd (train ["Hello"; "world"; "hello"]
                              (world0 (rt := slot_runtime) 1)))))
              "m.json" eq_refl eq_refl) as (_ & _ & _ & E).
  etransitivity; [exact E | reflexivity].
Defined.

(* ------------------------------------------------------------------ *)
(** ** [tokenize]: the shape of tokens and the round trip through [join] *)

Module TokenShape.

Local Open Scope string_scope.

Lemma append_assoc (a b c : string) : (a ++ b) ++ c = a ++ (b ++ c).
Proof. induction a as [| x a IH]; simpl; [reflexivity | now rewrite IH]. Qed.

Lemma append_nil_r (a : string) : a ++ EmptyString = a.
Proof. induction a as [| x a IH]; simpl; [reflexivity | now rewrite IH]. Qed.

Lemma append_length (a b : string) :
  String.length (a ++ b) = (String.length a + String.length b)%nat.
Proof. induction a as [| x a IH]; simpl; [reflexivity | now rewrite IH]. Qed.

Lemma all_chars_append p a b :
  all_chars p (a ++ b) = (all_chars p a && all_chars p b)%bool.
Proof.
  induction a as [| x a IH]; simpl; [reflexivity |].
  now rewrite IH, andb_assoc.
Qed.

Lemma span_spec p s :
  fst (span p s) ++ snd (span p s) = s
  /\ all_chars p (fst (span p s)) = true
  /\ stops p (snd (span p s)).
Proof.
  induction s as [| c r IH]; simpl; [auto |].
  destruct (p c) eqn:E; simpl; [| auto].
  destruct (span p r) as [a b]; simpl in *.
  destruct IH as (E1 & E2 & E3). rewrite E1, E, E2. auto.
Qed.

Lemma span_exact p a b :
  all_chars p a = true -> stops p b -> span p (a ++ b) = (a, b).
Proof.
  intros Ha Hb. induction a as [| x a IH]; simpl in *.
  - destruct b as [| c r]; simpl in *; [reflexivity | now rewrite Hb].
  - apply andb_true_iff in Ha as [Hx Ha]. now rewrite Hx, IH.
Qed.

Lemma match_word_shape s t rest :
  match_word s = Some (t, rest) ->
  word_token t /\ s = t ++ rest /\ stops is_word rest.
Proof.
  unfold match_word. destruct (span_spec is_word s) as (E1 & E2 & E3).
  destruct (span is_word s) as [w r]; simpl in *.
  destruct w as [| c w']; [discriminate |].
  intros [= <- <-]. repeat split; auto. discriminate.
Qed.

Lemma match_quoted_shape s t rest :
  match_quoted s = Some (t, rest) -> quoted_token t /\ s = t ++ rest.
Proof.
  unfold match_quoted. destruct (span_spec is_word s) as (E1 & E2 & E3).
  destruct (span is_word s) as [w r]; simpl in *.
  destruct w as [| c w']; [discriminate |].
  destruct r as [| e [| q r1]]; try discriminate.
  destruct (Ascii.eqb_spec e "="); simpl; [| discriminate].
  destruct (Ascii.eqb_spec q dquote); simpl; [| discriminate].
  destruct (span_spec not_dquote r1) as (F1 & F2 & F3).
  destruct (span not_dquote r1) as [v r2]; simpl in *.
  destruct r2 as [| q' r3]; [discriminate |].
  destruct (Ascii.eqb_spec q' dquote); [| discriminate].
  intros [= <- <-]. subst. split.
  - exists (String c w'), v. repeat split; auto. discriminate.
  - simpl. rewrite append_assoc. simpl. rewrite append_assoc. reflexivity.
Qed.

Lemma match_token_shape s t rest :
  match_token s = Some (t, rest) ->
  (word_token t \/ quoted_token t) /\ s = t ++ rest.
Proof.
  unfold match_token. destruct (match_quoted s) as [m |] eqn:Q.
  - intros [= ->]. apply match_quoted_shape in Q as [H1 H2]. auto.
  - intros W. apply match_word_shape in W as (H1 & H2 & _). auto.
Qed.

Lemma findall_shape fuel :
  forall s toks,
    findall fuel s = Some toks ->
    Forall (fun t => word_token t \/ quoted_token t) toks.
Proof.
  induction fuel as [| fuel IH]; intros s toks; simpl; [discriminate |].
  destruct s as [| c r]; [intros [= <-]; constructor |].
  destruct (match_token (String c r)) as [[tok rest] |] eqn:E.
  - destruct (findall fuel rest) as [toks' |] eqn:F; [| discriminate].
    intros [= <-]. constructor.
    + now apply match_token_shape in E as [H _].
    + now apply (IH rest).
  - apply IH.
Qed.

Lemma tokenize_tokens_shape text :
  Forall (fun t => word_token t \/ quoted_token t) (tokenize text).
Proof.
  unfold tokenize.
  destruct (findall (S (String.length text)) text) as [toks |] eqn:E;
    [| constructor].
  exact (findall_shape _ _ _ E).
Qed.

(** A token followed by nothing or by a space is matched whole. *)
Lemma match_token_exact t rest :
  word_token t \/ quoted_token t ->
  rest = EmptyString \/ (exists r, rest = String " " r) ->
  match_token (t ++ rest) = Some (t, rest).
Proof.
  intros Ht Hr.
  assert (Hs : stops is_word rest)
    by (destruct Hr as [-> | [r ->]]; simpl; auto).
  destruct Ht as [[Hne Hw] | (k & v & -> & [Hne Hw] & Hv)].
  - unfold match_token, match_quoted, match_word.
    rewrite (span_exact _ _ _ Hw Hs).
    destruct t as [| c t']; [congruence |].
    destruct Hr as [-> | [r ->]]; [reflexivity |].
    destruct r as [| q r1]; reflexivity.
  - unfold match_token, match_quoted.
    rewrite !append_assoc. simpl.
    rewrite (span_exact is_word k) by (simpl; auto).
    destruct k as [| c k']; [congruence |].
    rewrite Ascii.eqb_refl. simpl.
    rewrite (span_exact not_dquote v) by (simpl; auto).
    now rewrite Ascii.eqb_refl.
Qed.

Lemma token_not_empty t : word_token t \/ quoted_token t -> t <> EmptyString.
Proof.
  intros [[N _] | (k & v & -> & [N _] & _)]; [assumption |].
  destruct k; [congruence | discriminate].
Qed.

(** Tokens joined by single spaces are found again, given enough fuel. *)
Lemma findall_join toks :
  Forall (fun t => word_token t \/ quoted_token t) toks ->
  forall fuel,
    (String.length (join " " toks) < fuel)%nat ->
    findall fuel (join " " toks) = Some toks.
Proof.
  induction 1 as [| t toks Ht Hall IH]; intros fuel Hf.
  - destruct fuel; [lia | reflexivity].
  - destruct fuel as [| fuel]; [lia |].
    pose proof (token_not_empty t Ht) as Hne.
    destruct toks as [| t2 toks'].
    + simpl join in *.
      pose proof (match_token_exact t EmptyString Ht (or_introl eq_refl))
        as M.
      rewrite append_nil_r in M.
      destruct t as [| c t']; [congruence |].
      simpl. rewrite M.
      destruct fuel; [simpl in Hf; lia | reflexivity].
    + change (join " " (t :: t2 :: toks'))
        with (t ++ String " " (join " " (t2 :: toks'))) in *.
      set (J := join " " (t2 :: toks')) in *.
      rewrite append_length in Hf. cbn [String.length] in Hf.
      assert (Hl : (1 <= String.length t)%nat)
        by (destruct t; [congruence | simpl; lia]).
      pose proof (match_token_exact t (String " " J) Ht
                    (or_intror (ex_intro _ _ eq_refl))) as M.
      destruct fuel as [| fuel]; [lia |].
      assert (HJ : (String.length J < fuel)%nat) by lia.
      destruct t as [| c t']; [congruence |].
      cbn [findall append] in *. rewrite M.
      cbn [option_map findall].
      change (match_token (String " " J)) with (@None (string * string)).
      rewrite (IH fuel HJ). reflexivity.
Qed.

End TokenShape.

(** X12. Every token that [tokenize] returns is a bare word (one or more
    word characters) or a quoted attribute (a bare word, [=], and a value
    between double quotes that holds no double quote). *)
Theorem tokenize_shape :
  forall (text : string) (t : Token),
    In t (tokenize text) -> word_token t \/ quoted_token t.
Proof.
  intros text t I.
  pose proof (TokenShape.tokenize_tokens_shape text) as H.
  rewrite Forall_forall in H. now apply H.
Qed.

Lemma tokenize_shape_witness :
  In journal_token (tokenize journal_text)
  /\ (word_token journal_token \/ quoted_token journal_token).
Proof.
  assert (I : In journal_token (tokenize journal_text))
    by (right; left; reflexivity).
  split; [exact I |].
  exact (tokenize_shape journal_text journal_token I).
Defined.

(** X13. Joining tokens by single spaces, as [sample] does for its
    completion text, loses nothing: tokenizing the joined text of a
    tokenization gives the same tokens again. *)
Theorem tokenize_join_round_trip :
  forall (text : string),
    tokenize (join " " (tokenize text)) = tokenize text.
Proof.
  intros text. unfold tokenize at 1.
  rewrite (TokenShape.findall_join _ (TokenShape.tokenize_tokens_shape text));
    [reflexivity | lia].
Qed.

(* ------------------------------------------------------------------ *)
(** ** Case of the text *)

Module CaseFacts.

Lemma is_space_lower_char c : is_space (lower_char c) = is_space c.
Proof. destruct c as [[] [] [] [] [] [] [] []]; reflexivity. Qed.

Lemma lower_lstrip s : lower (lstrip s) = lstrip (lower s).
Proof.
  induction s as [| c r IH]; simpl; [reflexivity |].
  rewrite is_space_lower_char. destruct (is_space c); simpl; auto.
Qed.

Lemma lower_rev_string s :
  forall acc, lower (rev_string acc s) = rev_string (lower acc) (lower s).
Proof.
  induction s as [| c r IH]; intros acc; simpl; [reflexivity |].
  now rewrite IH.
Qed.

Lemma lower_strip s : lower (strip s) = strip (lower s).
Proof.
  unfold strip, rstrip.
  now rewrite lower_rev_string, lower_lstrip, lower_rev_string, lower_lstrip.
Qed.

Lemma line_tokens_lower p1 p2 :
  lower p1 = lower p2 -> line_tokens p1 = line_tokens p2.
Proof.
  intros E. unfold line_tokens. now rewrite !lower_strip, E.
Qed.

End CaseFacts.

(** X14. The case of ASCII letters in the text never matters: two prefixes
    that are equal once lowercased give the same call of [sample] (same
    result, same world after), and two lines that are equal once lowercased
    train the same. *)
Theorem text_case_is_ignored {rt : PyRuntime} :
  forall (p1 p2 : string),
    lower p1 = lower p2 ->
    (forall w max_tokens seed,
        sample p1 max_tokens seed w = sample p2 max_tokens seed w)
    /\ (forall w before after,
          train (before ++ p1 :: after) w = train (before ++ p2 :: after) w).
Proof.
  intros p1 p2 E. apply CaseFacts.line_tokens_lower in E.
  unfold line_tokens in E. split.
  - intros w max_tokens seed. unfold sample. now rewrite E.
  - intros w before after.
    assert (L : train_line p1 = train_line p2)
      by (unfold train_line; now rewrite E).
    unfold train, bind. rewrite !for_each_app. cbn [for_each].
    now rewrite L.
Qed.

Lemma text_case_is_ignored_witness :
  lower "Open APP" = lower "open app"
  /\ sample "Open APP" 3 (Some 5) (abc_world (rt := slot_runtime) 3)
     = sample "open app" 3 (Some 5) (abc_world (rt := slot_runtime) 3).
Proof.
  split; [reflexivity |].
  destruct (text_case_is_ignored "Open APP" "open app" eq_refl) as [H _].
  apply H.
Defined.

(* ------------------------------------------------------------------ *)
(** ** Bigram counts against word counts *)

Section CountsAgree.
Context {rt : PyRuntime}.

Lemma adjacent_cons2 (x y : Token) (r : list Token) :
  adjacent (x :: y :: r) = (x, y) :: adjacent (y :: r).
Proof. reflexivity. Qed.

Lemma adjacent_le_first (a b : Token) (l : list Token) :
  (count_occ bigram_dec (adjacent l) (a, b) <= count_occ string_dec l a)%nat.
Proof.
  induction l as [| x r IH]; [apply Nat.le_refl |].
  destruct r as [| y r']; [apply Nat.le_0_l |].
  rewrite adjacent_cons2.
  destruct (bigram_dec (x, y) (a, b)) as [E | N].
  - rewrite (count_occ_cons_eq _ _ E). injection E as -> ->.
    rewrite (count_occ_cons_eq _ _ (eq_refl a)). unfold Token in *; lia.
  - rewrite (count_occ_cons_neq _ _ N).
    destruct (string_dec x a) as [E | N'].
    + rewrite (count_occ_cons_eq _ _ E). unfold Token in *; lia.
    + rewrite (count_occ_cons_neq _ _ N'). exact IH.
Qed.

Lemma adjacent_le_second (a b : Token) (l : list Token) :
  (count_occ bigram_dec (adjacent l) (a, b)
   <= count_occ string_dec (tl l) b)%nat.
Proof.
  induction l as [| x r IH]; [apply Nat.le_refl |].
  destruct r as [| y r']; [apply Nat.le_0_l |].
  rewrite adjacent_cons2. cbn [tl] in *.
  destruct (bigram_dec (x, y) (a, b)) as [E | N].
  - rewrite (count_occ_cons_eq _ _ E). injection E as -> ->.
    rewrite (count_occ_cons_eq _ _ (eq_refl b)). unfold Token in *; lia.
  - rewrite (count_occ_cons_neq _ _ N).
    destruct (string_dec y b) as [E | N'].
    + rewrite (count_occ_cons_eq _ _ E). unfold Token in *; lia.
    + rewrite (count_occ_cons_neq _ _ N'). exact IH.
Qed.

Lemma count_occ_tl_le (b : Token) (l : list Token) :
  (count_occ string_dec (tl l) b <= count_occ string_dec l b)%nat.
Proof.
  destruct l as [| x r]; [apply Nat.le_refl |]. cbn [tl].
  destruct (string_dec x b) as [E | N].
  - rewrite (count_occ_cons_eq _ _ E). unfold Token in *; lia.
  - rewrite (count_occ_cons_neq _ _ N). unfold Token in *; lia.
Qed.

Lemma corpus_bigrams_le (a b : Token) (corpus : list string) :
  (count_occ bigram_dec (corpus_bigrams corpus) (a, b)
   <= count_occ string_dec (corpus_words corpus) a)%nat
  /\ (count_occ bigram_dec (corpus_bigrams corpus) (a, b)
      <= count_occ string_dec (corpus_words corpus) b)%nat.
Proof.
  unfold corpus_bigrams, corpus_words.
  induction corpus as [| line r [IH1 IH2]]; simpl; [split; lia |].
  rewrite !count_occ_app.
  pose proof (adjacent_le_first a b (line_tokens line)).
  pose proof (adjacent_le_second a b (line_tokens line)).
  pose proof (count_occ_tl_le b (line_tokens line)).
  unfold Token in *. split; lia.
Qed.

Lemma trained_counts_agree (w : World) :
  trained w ->
  forall a b,
    count_of (bigram_counts (self w)) a b
    <= word_count_of (word_counts (self w)) a
    /\ count_of (bigram_counts (self w)) a b
       <= word_count_of (word_counts (self w)) b.
Proof.
  induction 1 as [g fs | w corpus _ IH | w prefix n seed _ IH
                  | w model_file _ IH]; intros a b.
  - simpl. unfold count_of, word_count_of. simpl. lia.
  - unfold train.
    destruct (train_lines_spec corpus w) as (wc' & bc' & E & Hw & Hb).
    rewrite (bind_ok _ _ _ _ _ E).
    destruct (calculate_counts
                (with_bigram_counts bc' (with_word_counts wc' w)))
      as [E1 E2].
    rewrite E1, E2. simpl. rewrite Hb, !Hw.
    destruct (IH a b) as [I1 I2].
    destruct (corpus_bigrams_le a b corpus) as [C1 C2].
    unfold Token in *. split; lia.
  - destruct (sample_frame prefix n seed w) as [-> _]. apply IH.
  - rewrite save_model_frame. apply IH.
Qed.

End CountsAgree.

(** X15. On an instance reached by training, a bigram is never counted more
    often than either of its two words: [bigram_counts[(a, b)]] is at most
    [word_counts[a]] and at most [word_counts[b]] (absent entries counting
    as 0). *)
Theorem bigram_count_at_most_word_counts {rt : PyRuntime} :
  forall (w : World) (a b : Token),
    trained w ->
    count_of (bigram_counts (self w)) a b
    <= word_count_of (word_counts (self w)) a
    /\ count_of (bigram_counts (self w)) a b
       <= word_count_of (word_counts (self w)) b.
Proof. intros w a b Tr. now apply trained_counts_agree. Qed.

Lemma bigram_count_at_most_word_counts_witness :
  trained (abc_world (rt := slot_runtime) 3)
  /\ count_of (bigram_counts (self (abc_world (rt := slot_runtime) 3)))
       "a" "b"
     <= word_count_of (word_counts (self (abc_world (rt := slot_runtime) 3)))
          "a".
Proof.
  assert (Tr : trained (abc_world (rt := slot_runtime) 3))
    by (apply trained_train, trained_init).
  split; [exact Tr |].
  destruct (bigram_count_at_most_word_counts
              (abc_world (rt := slot_runtime) 3) "a" "b" Tr) as [H _].
  exact H.
Defined.

(* ------------------------------------------------------------------ *)
(** ** Lower case *)

Section LowerCase.
Context {rt : PyRuntime}.

Lemma lower_char_lowercase c : negb (in_range 65 90 (lower_char c)) = true.
Proof. destruct c as [[] [] [] [] [] [] [] []]; reflexivity. Qed.

Lemma lower_lowercase s : lowercase (lower s).
Proof.
  unfold lowercase. induction s as [| c r IH]; simpl; [reflexivity |].
  now rewrite lower_char_lowercase, IH.
Qed.

(** A token is a piece of the text, so it has no character that the text
    has not. *)
Lemma findall_all_chars (q : ascii -> bool) fuel :
  forall s toks,
    all_chars q s = true -> findall fuel s = Some toks ->
    Forall (fun t => all_chars q t = true) toks.
Proof.
  induction fuel as [| fuel IH]; intros s toks Hs; simpl; [discriminate |].
  destruct s as [| c r]; [intros [= <-]; constructor |].
  destruct (match_token (String c r)) as [[tok rest] |] eqn:E.
  - destruct (findall fuel rest) as [toks' |] eqn:F; [| discriminate].
    intros [= <-].
    apply TokenShape.match_token_shape in E as [_ E].
    rewrite E, TokenShape.all_chars_append in Hs.
    apply andb_true_iff in Hs as [H1 H2].
    constructor; [exact H1 | now apply (IH rest)].
  - simpl in Hs. apply andb_true_iff in Hs as [_ Hr]. now apply IH.
Qed.

Lemma line_tokens_lowercase line :
  Forall lowercase (line_tokens line).
Proof.
  unfold line_tokens, tokenize.
  destruct (findall _ (lower (strip line))) as [toks |] eqn:E;
    [| constructor].
  exact (findall_all_chars _ _ _ _ (lower_lowercase (strip line)) E).
Qed.

Lemma dict_set_In_inv {K V} `{EqKey K} (k : K) (v : V) (d : dict K V)
    (kv : K * V) :
  In kv (dict_set k v d) -> kv = (k, v) \/ exists v', In (fst kv, v') d.
Proof.
  induction d as [| [k2 v2] r IH]; simpl.
  - intros [<- | []]. now left.
  - destruct (key_eqb_spec k k2) as [<- | N]; simpl.
    + intros [<- | I]; [now left |]. right. exists (snd kv).
      right. now destruct kv.
    + intros [<- | I]; [right; exists v2; now left |].
      destruct (IH I) as [-> | [v' I']]; [now left |].
      right. exists v'. now right.
Qed.

Lemma lowercase_count_word t (w : World) :
  lowercase t -> lowercase_counts w ->
  exists w', count_word t w = (Ok tt, w') /\ lowercase_counts w'.
Proof.
  intros Lt [Hw Hb]. eexists. split; [reflexivity |]. split; simpl.
  - intros t' c I. apply dict_set_In_inv in I as [[= -> _] | [v' I]];
      [exact Lt | exact (Hw _ _ I)].
  - exact Hb.
Qed.

Lemma lowercase_count_bigram toks i (w : World) :
  Forall lowercase toks -> (i + 1 < List.length toks)%nat ->
  lowercase_counts w ->
  exists w', count_bigram toks i w = (Ok tt, w') /\ lowercase_counts w'.
Proof.
  intros Lt Hi [Hw Hb]. rewrite count_bigram_at by assumption.
  eexists. split; [reflexivity |]. split; simpl; [exact Hw |].
  rewrite Forall_forall in Lt.
  intros a b c I. apply dict_set_In_inv in I as [[= -> -> _] | [v' I]].
  - split; apply Lt, nth_In; unfold Token in *; lia.
  - exact (Hb _ _ _ I).
Qed.

Lemma lowercase_train_line line (w : World) :
  lowercase_counts w ->
  exists w', train_line line w = (Ok tt, w') /\ lowercase_counts w'.
Proof.
  intros L. unfold train_line. fold (line_tokens line).
  pose proof (line_tokens_lowercase line) as Lt.
  destruct (line_tokens line) as [| t0 ts] eqn:E.
  - exists w. now split.
  - destruct (for_each_invariant lowercase_counts (t0 :: ts) count_word)
      with (w := w) as (w1 & E1 & L1); [| assumption |].
    { intros x w2 I L2. apply lowercase_count_word; [| assumption].
      rewrite Forall_forall in Lt. now apply Lt. }
    rewrite (bind_ok _ _ _ _ _ E1).
    apply for_each_invariant; [| assumption].
    intros i w2 I L2. apply in_seq in I.
    apply lowercase_count_bigram;
      [assumption | unfold Token in *; simpl in *; lia | assumption].
Qed.

Lemma trained_lowercase (w : World) : trained w -> lowercase_counts w.
Proof.
  induction 1 as [g fs | w corpus _ IH | w prefix n seed _ IH
                  | w model_file _ IH].
  - split; [intros t c [] | intros a b c []].
  - unfold train.
    destruct (for_each_invariant lowercase_counts corpus train_line)
      with (w := w) as (w1 & E1 & [Hw Hb]); [| assumption |].
    { intros line w2 _ L2. now apply lowercase_train_line. }
    rewrite (bind_ok _ _ _ _ _ E1).
    destruct (calculate_counts w1) as [C1 C2].
    split; [rewrite C2; exact Hw | rewrite C1; exact Hb].
  - unfold lowercase_counts.
    destruct (sample_frame prefix n seed w) as [-> _]. exact IH.
  - unfold lowercase_counts. rewrite save_model_frame. exact IH.
Qed.

End LowerCase.

(** X16. Everything is stored and generated in lower case: on an instance
    reached by training no key of [word_counts] or [bigram_counts] holds an
    upper-case ASCII letter, and neither does any token that [sample]
    returns. *)
Theorem trained_model_is_lowercase {rt : PyRuntime} :
  forall (w : World),
    trained w ->
    lowercase_counts w
    /\ forall prefix max_tokens seed c,
         fst (sample prefix max_tokens seed w) = Ok c ->
         Forall lowercase (tokens c).
Proof.
  intros w Tr. pose proof (trained_lowercase w Tr) as L.
  split; [exact L |].
  intros prefix max_tokens seed c. rewrite sample_unfold. simpl.
  set (w0 := match seed with
             | Some s => with_random_state (seed_state s) w
             | None => w
             end).
  assert (Hself : self w0 = self w) by apply sample_start.
  destruct (trained_well_formed w Tr) as (_ & _ & Snd).
  pose proof (sample_loop_extends (Z.to_nat max_tokens)
                (tokenize (lower (strip prefix))) w0) as Hext.
  destruct (sample_loop (Z.to_nat max_tokens)
              (tokenize (lower (strip prefix))) w0) as [[out | e] w1];
    simpl; [| discriminate].
  intros [= <-]. simpl.
  destruct (Hext out eq_refl) as (gen & -> & Hgen).
  rewrite skipn_length_app. apply Forall_forall. intros t I.
  destruct (Hgen t I) as (P & dist & D & J). rewrite Hself in D.
  destruct (Snd P dist t D J) as [n Hn].
  destruct L as [_ Hb]. now destruct (Hb P t n Hn).
Qed.

Lemma trained_model_is_lowercase_witness :
  trained (snd (train ["Open APP"; "OPEN Journal"]
                  (world0 (rt := slot_runtime) 2)))
  /\ lowercase_counts (snd (train ["Open APP"; "OPEN Journal"]
                              (world0 (rt := slot_runtime) 2))).
Proof.
  assert (Tr : trained (snd (train ["Open APP"; "OPEN Journal"]
                               (world0 (rt := slot_runtime) 2))))
    by (apply trained_train, trained_init).
  split; [exact Tr |].
  destruct (trained_model_is_lowercase _ Tr) as [L _]. exact L.
Defined.
